(** * Voice translator backend: the audio-translation pipeline of
      [backend/server.js], embedded as state-passing functions over an
      explicit model of the outside world (Hugging Face router, Google
      Translate client, gTTS, the local file system and the socket).

    Every external call is appended to a chronological trace, so that
    "provider X was (not) invoked" and "event A was emitted before event
    B" are statements about that trace.  Provider replies are chosen by
    the world and may depend on everything that happened before. *)

From Stdlib Require Import Strings.Byte.
From stdpp Require Import gmap strings list fin_maps pretty.

Open Scope string_scope.
Open Scope Z_scope.
Open Scope list_scope.

Set Warnings "-register-all".

(* ===================================================================== *)
(** ** JavaScript values, as far as the server inspects them *)
(* ===================================================================== *)

(** Parsed JSON bodies and the values the server passes around without
    validating their type.  JSON numbers are restricted to integers. *)
Inductive JsVal : Type :=
| JUndef
| JNull
| JBool (b : bool)
| JNum (n : Z)
| JStr (s : string)
| JArr (items : list JsVal)
| JObj (fields : list (string * JsVal)).

(** A Node [Buffer] (and an [ArrayBuffer] response body). *)
Abbreviation Buffer := (list byte).

(** [Buffer.from(str)]: the bytes of the string. *)
Definition Buffer_from_string (s : string) : Buffer := String.list_byte_of_string s.

(** ToBoolean. *)
Definition truthy (v : JsVal) : bool :=
  match v with
  | JUndef | JNull => false
  | JBool b => b
  | JNum n => negb (n =? 0)
  | JStr s => negb (String.eqb s "")
  | JArr _ | JObj _ => true
  end.

Definition nullish (v : JsVal) : bool :=
  match v with
  | JUndef | JNull => true
  | _ => false
  end.

Fixpoint assoc (k : string) (fields : list (string * JsVal)) : JsVal :=
  match fields with
  | [] => JUndef
  | (k', v) :: rest => if String.eqb k k' then v else assoc k rest
  end.

(** [v.k] on a value that is neither [null] nor [undefined], for the
    property names the server reads ([text], [translation],
    [translation_text], [label]): only objects carry them. *)
Definition js_prop (v : JsVal) (k : string) : JsVal :=
  match v with
  | JObj fields => assoc k fields
  | _ => JUndef
  end.

(** [v?.k]. *)
Definition js_opt_prop (v : JsVal) (k : string) : JsVal :=
  if nullish v then JUndef else js_prop v k.

(** [v[0]] on a value that is neither [null] nor [undefined]. *)
Definition js_index0 (v : JsVal) : JsVal :=
  match v with
  | JArr (x :: _) => x
  | JObj fields => assoc "0" fields
  | JStr (String c _) => JStr (String c "")
  | _ => JUndef
  end.

Definition isArray (v : JsVal) : bool :=
  match v with JArr _ => true | _ => false end.

(** [typeof v === 'string'], giving the string back. *)
Definition as_string (v : JsVal) : option string :=
  match v with JStr s => Some s | _ => None end.

(** ToString, as used by template literals. *)
Fixpoint js_to_string (v : JsVal) : string :=
  match v with
  | JUndef => "undefined"
  | JNull => "null"
  | JBool true => "true"
  | JBool false => "false"
  | JNum n => pretty n
  | JStr s => s
  | JArr items =>
      (fix join (l : list JsVal) : string :=
         match l with
         | [] => ""
         | [x] => if nullish x then "" else js_to_string x
         | x :: rest =>
             (if nullish x then "" else js_to_string x) +:+ "," +:+ join rest
         end) items
  | JObj _ => "[object Object]"
  end.

(** [a === s] for a string [s]. *)
Definition strict_eq_str (a : JsVal) (s : string) : bool :=
  match a with JStr a' => String.eqb a' s | _ => false end.

(* ===================================================================== *)
(** ** Errors, outcomes and the pipeline monad *)
(* ===================================================================== *)

(** A thrown [Error]; axios errors may carry [error.response.data.error]. *)
Record JsError := mkError {
  message : string;
  response_data_error : option string
}.

Definition Error (msg : string) : JsError := mkError msg None.

(** What an awaited call does: it returns, it throws, or its promise is
    never settled. *)
Inductive Outcome (A : Type) : Type :=
| Return (a : A)
| Throw (e : JsError)
| Pending.
Arguments Return {A} a.
Arguments Throw {A} e.
Arguments Pending {A}.

(** Replies of an external service. *)
Inductive Reply (A : Type) : Type :=
| Ok (data : A)
| Failed (e : JsError).
Arguments Ok {A} data.
Arguments Failed {A} e.

Inductive Body : Type :=
| BodyBytes (b : Buffer)
| BodyJson (v : JsVal).

(** Events the server sends on the socket. *)
Inductive SocketEvent : Type :=
| TranscriptionUpdate (originalText : string)
| TranslatedAudio (audio : Buffer) (text : JsVal)
| ErrorEvent (msg : string).

(** Everything the server does to the outside world. *)
Inductive Event : Type :=
| EvPost (model : string) (body : Body)
| EvGoogleDetect (text : string)
| EvGoogleTranslate (text : string) (from : JsVal) (to : string)
| EvGttsNew (text : JsVal) (lang : string)
| EvGttsSave (path : string)
| EvReadFile (path : string)
| EvUnlink (path : string)
| EvEmit (e : SocketEvent).

Record State := mkState {
  trace : list Event;
  fs : gmap string Buffer
}.

Definition M (A : Type) : Type := State -> Outcome A * State.

Definition ret {A} (a : A) : M A := fun st => (Return a, st).

Definition throw {A} (e : JsError) : M A := fun st => (Throw e, st).

Definition never {A} : M A := fun st => (Pending, st).

Definition bind {A B} (m : M A) (k : A -> M B) : M B :=
  fun st =>
    match m st with
    | (Return a, st') => k a st'
    | (Throw e, st') => (Throw e, st')
    | (Pending, st') => (Pending, st')
    end.

(** [try { m } catch (e) { h e }]. *)
Definition try_catch {A} (m : M A) (h : JsError -> M A) : M A :=
  fun st =>
    match m st with
    | (Throw e, st') => h e st'
    | r => r
    end.

Notation "x <- c ;; k" := (bind c (fun x => k))
  (at level 100, c at next level, right associativity).
Notation "c ;;; k" := (bind c (fun _ => k))
  (at level 100, right associativity).

Definition log (ev : Event) : M unit :=
  fun st => (Return tt, mkState (trace st ++ [ev]) (fs st)).

(* ===================================================================== *)
(** ** The outside world *)
(* ===================================================================== *)

(** What [speech.save(path, cb)] of gTTS does: it writes the mp3 and calls
    back without error; or it calls back with an error, possibly leaving a
    partly written file; or it never calls back at all (the request to
    Google hangs: the code sets no timeout here), again possibly leaving a
    partly written file. *)
Inductive SaveOutcome : Type :=
| SaveOk (mp3 : Buffer)
| SaveErr (e : JsError) (partial : option Buffer)
| SaveNoCallback (partial : option Buffer).

(** The providers and the platform.  Every axios call is answered, with
    data or with an error (each carries a timeout, and a timeout is an
    error), and so are the calls of the Google client; [speech.save] of
    gTTS may never call back.  An answer may depend on the trace so far,
    so the same request can be answered differently at different times. *)
Record World := mkWorld {
  (** [googleTranslateClient] is set (credentials present at start-up). *)
  googleTranslateClient : bool;
  (** [detection.language] of [googleTranslateClient.detect(text)]. *)
  google_detect : list Event -> string -> Reply JsVal;
  (** [googleTranslateClient.translate(text, { from, to })]. *)
  google_translate : list Event -> string -> JsVal -> string -> Reply string;
  (** [axios.post] to [router.huggingface.co/hf-inference/models/<model>]
      with [responseType: 'json'] (or the default). *)
  axios_post_json : list Event -> string -> Body -> Reply JsVal;
  (** The same with [responseType: 'arraybuffer']. *)
  axios_post_arraybuffer : list Event -> string -> JsVal -> Reply Buffer;
  (** [new gtts(text, lang)] may throw. *)
  gtts_new : list Event -> JsVal -> string -> option JsError;
  (** [speech.save(path, cb)] for the speech of [text] in [lang]. *)
  gtts_save : list Event -> JsVal -> string -> string -> SaveOutcome;
  Date_now : list Event -> Z;
  tmpdir : string
}.

(* ===================================================================== *)
(** ** External calls, each recorded in the trace *)
(* ===================================================================== *)

Section Server.

Variable w : World.

(** [await axios.post(url(model), body, { responseType: 'json' })]. *)
Definition post_json (model : string) (body : Body) : M (Reply JsVal) :=
  fun st =>
    (Return (axios_post_json w (trace st) model body),
     mkState (trace st ++ [EvPost model body]) (fs st)).

(** [await axios.post(url(model), body, { responseType: 'arraybuffer' })]. *)
Definition post_arraybuffer (model : string) (body : JsVal) : M (Reply Buffer) :=
  fun st =>
    (Return (axios_post_arraybuffer w (trace st) model body),
     mkState (trace st ++ [EvPost model (BodyJson body)]) (fs st)).

Definition client_detect (text : string) : M (Reply JsVal) :=
  fun st =>
    (Return (google_detect w (trace st) text),
     mkState (trace st ++ [EvGoogleDetect text]) (fs st)).

Definition client_translate (text : string) (from : JsVal) (to : string)
  : M (Reply string) :=
  fun st =>
    (Return (google_translate w (trace st) text from to),
     mkState (trace st ++ [EvGoogleTranslate text from to]) (fs st)).

Definition new_gtts (text : JsVal) (lang : string) : M (option JsError) :=
  fun st =>
    (Return (gtts_new w (trace st) text lang),
     mkState (trace st ++ [EvGttsNew text lang]) (fs st)).

(** [speech.save(tmpFile, cb)]: the file system changes as the outcome
    says, and the outcome is handed to the callback. *)
Definition speech_save (text : JsVal) (lang : string) (path : string)
  : M SaveOutcome :=
  fun st =>
    let out := gtts_save w (trace st) text lang path in
    let fs' :=
      match out with
      | SaveOk mp3 => <[path := mp3]> (fs st)
      | SaveErr _ (Some part) | SaveNoCallback (Some part) =>
          <[path := part]> (fs st)
      | SaveErr _ None | SaveNoCallback None => fs st
      end in
    (Return out, mkState (trace st ++ [EvGttsSave path]) fs').

(** [readFileSync(path)]: throws when the file does not exist. *)
Definition readFileSync (path : string) : M Buffer :=
  fun st =>
    let st' := mkState (trace st ++ [EvReadFile path]) (fs st) in
    match fs st !! path with
    | Some content => (Return content, st')
    | None =>
        (Throw (Error ("ENOENT: no such file or directory, open '" +:+ path +:+ "'")),
         st')
    end.

(** [unlinkSync(path)]: throws when the file does not exist. *)
Definition unlinkSync (path : string) : M unit :=
  fun st =>
    match fs st !! path with
    | Some _ =>
        (Return tt, mkState (trace st ++ [EvUnlink path]) (delete path (fs st)))
    | None =>
        (Throw (Error ("ENOENT: no such file or directory, unlink '" +:+ path +:+ "'")),
         mkState (trace st ++ [EvUnlink path]) (fs st))
    end.

(** [socket.emit(name, payload)]. *)
Definition emit (e : SocketEvent) : M unit := log (EvEmit e).

(** [join(tmpdir(), `tts-${Date.now()}.mp3`)]. *)
Definition tmp_file : M string :=
  fun st =>
    (Return (tmpdir w +:+ "/tts-" +:+ pretty (Date_now w (trace st)) +:+ ".mp3"), st).

(* ===================================================================== *)
(** ** Mock services (server.js 67-79) *)
(* ===================================================================== *)

Definition mockSpeechToText (audioBuffer : Buffer) : M string :=
  ret "This is a test translation from the mock service".

Definition mockTranslation (text : string) (sourceLang : JsVal) (targetLang : string)
  : M JsVal :=
  ret (JStr ("[Translated to " +:+ targetLang +:+ "] " +:+ text)).

Definition mockTextToSpeech (text : JsVal) (language : string) : M Buffer :=
  ret (Buffer_from_string "mock-audio-data").

(* ===================================================================== *)
(** ** Speech to text (server.js 185-223) *)
(* ===================================================================== *)

Definition stt_models : list string :=
  [ "openai/whisper-base"; "openai/whisper-large-v3" ].

(** The [for (const model of models)] loop, with the [throw] that follows
    it. *)
Fixpoint stt_loop (audioBuffer : Buffer) (models : list string) : M string :=
  match models with
  | [] => throw (Error "All STT models failed.")
  | model :: rest =>
      r <- post_json model (BodyBytes audioBuffer) ;;
      match r with
      | Ok data =>
          if truthy data then
            match as_string (js_prop data "text") with
            | Some text => ret text
            | None => stt_loop audioBuffer rest
            end
          else stt_loop audioBuffer rest
      | Failed _ => stt_loop audioBuffer rest
      end
  end.

Definition speechToTextWithHuggingFace (audioBuffer : Buffer) : M string :=
  stt_loop audioBuffer stt_models.

(* ===================================================================== *)
(** ** Language detection (server.js 225-255) *)
(* ===================================================================== *)

Definition detect_model : string := "papluca/xlm-roberta-base-language-detection".

(** [error.response?.data?.error || error.message]. *)
Definition error_message_of (e : JsError) : string :=
  match response_data_error e with
  | Some s => if String.eqb s "" then message e else s
  | None => message e
  end.

Definition detectLanguageWithHuggingFace (text : string) : M JsVal :=
  try_catch
    (r <- post_json detect_model (BodyJson (JObj [("inputs", JStr text)])) ;;
     match r with
     | Failed e => throw e
     | Ok data =>
         let invalid :=
           throw (Error "Invalid response format from language detection model.") in
         if truthy data then
           match js_index0 data with
           | JArr (topResult :: _) =>
               if nullish topResult then
                 throw (Error "Cannot read properties of null (reading 'label')")
               else if truthy (js_prop topResult "label")
               then ret (js_prop topResult "label")
               else invalid
           | _ => invalid
           end
         else invalid
     end)
    (fun error =>
       throw (Error ("Hugging Face language detection failed: "
                     +:+ error_message_of error))).

(* ===================================================================== *)
(** ** Translation (server.js 257-334) *)
(* ===================================================================== *)

Definition opus_mt (source target : string) : string :=
  "Helsinki-NLP/opus-mt-" +:+ source +:+ "-" +:+ target.

Definition translation_payload (inputText : JsVal) : Body :=
  BodyJson (JObj [ ("inputs", inputText);
                   ("options", JObj [("wait_for_model", JBool true)]) ]).

(** [doTranslation(inputText, model)]; its [catch] logs and rethrows. *)
Definition doTranslation (inputText : JsVal) (model : string) : M JsVal :=
  try_catch
    (r <- post_json model (translation_payload inputText) ;;
     match r with
     | Failed e => throw e
     | Ok data =>
         let invalid :=
           throw (Error "Invalid response format from translation model") in
         if truthy data then
           if isArray data
              && truthy (js_opt_prop (js_index0 data) "translation_text")
           then ret (js_prop (js_index0 data) "translation_text")
           else
             match as_string (js_prop data "translation") with
             | Some s => ret (JStr s)
             | None =>
                 match as_string data with
                 | Some s => ret (JStr s)
                 | None => invalid
                 end
             end
         else invalid
     end)
    (fun error => throw error).

(** Strategy 0: Google Translate when Japanese is involved and the client
    is configured.  [Some t] is the early [return translation]. *)
Definition google_for_japanese (text : string) (sourceLang : JsVal)
    (targetLang : string) : M (option string) :=
  if String.eqb targetLang "ja" || strict_eq_str sourceLang "ja" then
    if googleTranslateClient w then
      r <- client_translate text sourceLang targetLang ;;
      match r with
      | Ok translation => ret (Some translation)
      | Failed _ => ret None
      end
    else ret None
  else ret None.

(** Strategy 1: the direct model; a thrown error is caught and a falsy
    result is passed over.  [Some t] is the early [return translatedText]. *)
Definition direct_translation (text : string) (modelName : string)
  : M (option JsVal) :=
  try_catch
    (translatedText <- doTranslation (JStr text) modelName ;;
     if truthy translatedText then ret (Some translatedText) else ret None)
    (fun _ => ret None).

(** Strategy 2: pivot through English, then the final [throw]. *)
Definition pivot_translation (text : string) (sourceLang : JsVal)
    (targetLang : string) : M JsVal :=
  let exhausted := throw (Error "All translation strategies failed.") in
  if negb (strict_eq_str sourceLang "en") && negb (String.eqb targetLang "en")
  then
    textInEnglish <-
      doTranslation (JStr text) (opus_mt (js_to_string sourceLang) "en") ;;
    if truthy textInEnglish then
      translatedText <- doTranslation textInEnglish (opus_mt "en" targetLang) ;;
      if truthy translatedText then ret translatedText else exhausted
    else exhausted
  else exhausted.

Definition translateWithHuggingFace (text : string) (sourceLang : JsVal)
    (targetLang : string) : M JsVal :=
  g <- google_for_japanese text sourceLang targetLang ;;
  match g with
  | Some translation => ret (JStr translation)
  | None =>
      d <- direct_translation text (opus_mt (js_to_string sourceLang) targetLang) ;;
      match d with
      | Some translatedText => ret translatedText
      | None => pivot_translation text sourceLang targetLang
      end
  end.

(* ===================================================================== *)
(** ** Speech synthesis through Hugging Face (server.js 336-415) *)
(* ===================================================================== *)

Definition modelMap : gmap string string :=
  list_to_map
    [ ("es", "facebook/mms-tts-spa");
      ("fr", "facebook/mms-tts-fra");
      ("de", "facebook/mms-tts-deu");
      ("ja", "facebook/mms-tts-jpn");
      ("hi", "facebook/mms-tts-hin");
      ("it", "facebook/mms-tts-ita");
      ("ru", "facebook/mms-tts-rus");
      ("zh", "facebook/mms-tts-cmn");
      ("ur", "facebook/mms-tts-urd") ].

(** [modelMap] is an object literal: besides its nine own keys it answers
    to the names every object inherits from [Object.prototype].  The
    inherited values are functions, or [Object.prototype] itself for
    [__proto__]; all are truthy.  Each name comes with what the template
    literal of the request URL makes of its value. *)
Definition Object_prototype : list (string * string) :=
  [ ("constructor", "function Object() { [native code] }");
    ("__defineGetter__", "function __defineGetter__() { [native code] }");
    ("__defineSetter__", "function __defineSetter__() { [native code] }");
    ("hasOwnProperty", "function hasOwnProperty() { [native code] }");
    ("__lookupGetter__", "function __lookupGetter__() { [native code] }");
    ("__lookupSetter__", "function __lookupSetter__() { [native code] }");
    ("isPrototypeOf", "function isPrototypeOf() { [native code] }");
    ("propertyIsEnumerable", "function propertyIsEnumerable() { [native code] }");
    ("toString", "function toString() { [native code] }");
    ("valueOf", "function valueOf() { [native code] }");
    ("__proto__", "[object Object]");
    ("toLocaleString", "function toLocaleString() { [native code] }") ].

Definition inherited (key : string) : option string :=
  (list_to_map Object_prototype : gmap string string) !! key.

(** [modelMap[targetLang] || modelMap['es']], as the request URL shows
    it: an own key gives its model, an inherited name gives the inherited
    value, anything else gives the Spanish model. *)
Definition tts_model (targetLang : string) : string :=
  match modelMap !! targetLang with
  | Some m => m
  | None =>
      match inherited targetLang with
      | Some value => value
      | None => default "" (modelMap !! "es")
      end
  end.

Definition fallbackModels : list string :=
  [ "suno/bark";
    "espnet/kan-bayashi_ljspeech_vits";
    "microsoft/speecht5_tts" ].

Definition tts_payload (text : JsVal) : JsVal := JObj [("inputs", text)].

(** The [for (const fallbackModel of fallbackModels)] loop of the [catch]
    block, with the [throw] that follows it. *)
Fixpoint tts_fallback_loop (text : JsVal) (models : list string) : M Buffer :=
  match models with
  | [] => throw (Error "All TTS models failed")
  | fallbackModel :: rest =>
      r <- post_arraybuffer fallbackModel (tts_payload text) ;;
      match r with
      | Ok data =>
          if (100 <? Z.of_nat (length data))
          then ret data
          else tts_fallback_loop text rest
      | Failed _ => tts_fallback_loop text rest
      end
  end.

Definition textToSpeechWithHuggingFace (text : JsVal) (targetLang : string)
  : M Buffer :=
  let model := tts_model targetLang in
  try_catch
    (match text with
     | JStr _ =>
         r <- post_arraybuffer model (tts_payload text) ;;
         match r with
         | Failed e => throw e
         | Ok data =>
             if (Z.of_nat (length data) <? 100)
             then throw (Error "Audio response too short - likely an error")
             else ret data
         end
     | _ =>
         (* [text.substring(0, 50)] in the log line *)
         throw (Error "text.substring is not a function")
     end)
    (fun _ => tts_fallback_loop text fallbackModels).

(* ===================================================================== *)
(** ** Speech synthesis through gTTS (server.js 417-439) *)
(* ===================================================================== *)

(** The promise is rejected when the constructor throws or [save] calls
    back with an error, and resolved from the callback otherwise: it is
    never settled when [save] never calls back.  An exception thrown inside
    the [save] callback (by [readFileSync] or [unlinkSync]) is outside the
    executor's [try]: the promise is then never settled either. *)
Definition textToSpeechWithGoogle (text : JsVal) (targetLang : string) : M Buffer :=
  c <- new_gtts text targetLang ;;
  match c with
  | Some error => throw error
  | None =>
      tmpFile <- tmp_file ;;
      out <- speech_save text targetLang tmpFile ;;
      match out with
      | SaveNoCallback _ => never
      | SaveErr err _ => throw err
      | SaveOk _ =>
          try_catch
            (audioBuffer <- readFileSync tmpFile ;;
             unlinkSync tmpFile ;;;
             ret audioBuffer)
            (fun _ => never)
      end
  end.

(* ===================================================================== *)
(** ** The pipeline (server.js 81-182) *)
(* ===================================================================== *)

(** What the client may put in the [audio] field. *)
Inductive AudioData : Type :=
| AudioBuffer (b : Buffer)          (* a Buffer *)
| AudioBlob (b : Buffer)            (* something with [arrayBuffer()] *)
| AudioBytes (b : Buffer)           (* an array or typed array of bytes *)
| AudioString (s : string).         (* a string *)

(** Lines 85-93: the three ways to obtain [audioBuffer]. *)
Definition to_audioBuffer (audioData : AudioData) : Buffer :=
  match audioData with
  | AudioBuffer b => b
  | AudioBlob b => b
  | AudioBytes b => b
  | AudioString s => Buffer_from_string s
  end.

Record PipelineResult := mkResult {
  audio : Buffer;
  text : JsVal;
  originalText : string
}.

(** Lines 105-118: transcription, with the progress event on success and
    the mock transcript on failure. *)
Definition transcribe (audioBuffer : Buffer) (socket : bool) : M string :=
  try_catch
    (originalText <- speechToTextWithHuggingFace audioBuffer ;;
     (if socket then emit (TranscriptionUpdate originalText) else ret tt) ;;;
     ret originalText)
    (fun sttError => mockSpeechToText audioBuffer).

(** Lines 121-136: language detection when [sourceLang === 'auto']. *)
Definition detect (sourceLang : string) (originalText : string) : M JsVal :=
  if String.eqb sourceLang "auto" then
    try_catch
      (if googleTranslateClient w then
         r <- client_detect originalText ;;
         match r with
         | Ok language => ret language
         | Failed e => throw e
         end
       else detectLanguageWithHuggingFace originalText)
      (fun detectError =>
         throw (Error ("Language detection failed: " +:+ message detectError
                       +:+ ". Please select a source language manually.")))
  else ret (JStr sourceLang).

(** Lines 139-152: translation, skipped when source and target agree, with
    the mock translation on failure. *)
Definition translate (originalText : string) (detectedSourceLang : JsVal)
    (targetLang : string) : M JsVal :=
  if strict_eq_str detectedSourceLang targetLang then ret (JStr originalText)
  else
    try_catch
      (translateWithHuggingFace originalText detectedSourceLang targetLang)
      (fun transError => mockTranslation originalText detectedSourceLang targetLang).

(** Lines 157-173: synthesis, gTTS first, then Hugging Face, then the
    mock. *)
Definition synthesize (translatedText : JsVal) (targetLang : string) : M Buffer :=
  try_catch
    (try_catch
       (textToSpeechWithGoogle translatedText targetLang)
       (fun error => textToSpeechWithHuggingFace translatedText targetLang))
    (fun ttsError => mockTextToSpeech translatedText targetLang).

(** The outer [try]/[catch] only logs and rethrows. *)
Definition processAudioPipeline (audioData : AudioData) (sourceLang : string)
    (targetLang : string) (socket : bool) : M PipelineResult :=
  try_catch
    (let audioBuffer := to_audioBuffer audioData in
     if (Z.of_nat (length audioBuffer) <? 1000) then
       throw (Error "Audio buffer too small - may be empty")
     else
       originalText <- transcribe audioBuffer socket ;;
       detectedSourceLang <- detect sourceLang originalText ;;
       translatedText <- translate originalText detectedSourceLang targetLang ;;
       translatedAudio <- synthesize translatedText targetLang ;;
       ret (mkResult translatedAudio translatedText originalText))
    (fun error => throw error).

(* ===================================================================== *)
(** ** The socket handler (server.js 445-460) *)
(* ===================================================================== *)

(** The payload of an [audio-stream] event, when there is one; [None] is
    an absent field. *)
Record AudioStream := mkAudioStream {
  stream_audio : option AudioData;
  stream_sourceLang : option string;
  stream_targetLang : option string
}.

(** [!audioData]. *)
Definition audio_missing (a : option AudioData) : bool :=
  match a with
  | None => true
  | Some (AudioString s) => String.eqb s ""
  | Some _ => false
  end.

(** [socket.on('audio-stream', async (data) => ...)].  [payload] is [None]
    for an event sent without payload ([data] is [undefined]; [null] fares
    the same): the destructuring of line 446, before the guard and outside
    the [try], then throws a [TypeError].  The default parameters of
    [processAudioPipeline] ('auto' and 'es') apply to absent fields; the
    handler always passes its socket. *)
Definition on_audio_stream (payload : option AudioStream) : M unit :=
  match payload with
  | None =>
      throw (Error "Cannot destructure property 'audio' of 'data' as it is undefined.")
  | Some data =>
      if audio_missing (stream_audio data) then
        emit (ErrorEvent "No audio data received.")
      else
        match stream_audio data with
        | None => emit (ErrorEvent "No audio data received.")
        | Some audioData =>
            try_catch
              (result <-
                 processAudioPipeline audioData
                   (default "auto" (stream_sourceLang data))
                   (default "es" (stream_targetLang data))
                   true ;;
               emit (TranslatedAudio (audio result) (text result)))
              (fun error =>
                 emit (ErrorEvent ("Pipeline failed: " +:+ message error)))
        end
  end.

End Server.

(* ===================================================================== *)
(** ** The client's playback guard (frontend App.jsx, playTranslatedAudio) *)
(* ===================================================================== *)


(** [!audioData || (audioData.byteLength !== undefined &&
    audioData.byteLength < 50)]: "backend sent invalid or mock audio". *)
Definition not_playable (audioData : option Buffer) : bool :=
  match audioData with
  | None => true
  | Some b => Z.of_nat (length b) <? 50
  end.



(* ===================================================================== *)
(** ** Service check and health endpoint (server.js 45-65, 471-481) *)
(* ===================================================================== *)

(** What the health check sees of the process and of huggingface.co. *)
Record Env := mkEnv {
  (** [process.env.HUGGING_FACE_TOKEN]; [None] when unset. *)
  HUGGING_FACE_TOKEN : option string;
  (** [axios.get('https://huggingface.co/api/models', ...)]. *)
  axios_get_models : Reply JsVal;
  (** [new Date().toISOString()]. *)
  Date_toISOString : string
}.

(** [!!HUGGING_FACE_TOKEN]: an unset or empty token is falsy. *)
Definition token_set (env : Env) : bool :=
  match HUGGING_FACE_TOKEN env with
  | Some s => negb (String.eqb s "")
  | None => false
  end.

(** [testServices()]: its result, and the URLs it requested. *)
Definition testServices (env : Env) : bool * list string :=
  if negb (token_set env) then (false, [])
  else
    match axios_get_models env with
    | Ok _ => (true, ["https://huggingface.co/api/models"])
    | Failed _ => (false, ["https://huggingface.co/api/models"])
    end.

Record HealthReport := mkHealth {
  status : string;
  timestamp : string;
  services_huggingFace : bool;
  services_apiAccessible : bool
}.

(** [GET /api/health]: the JSON body, and the URLs requested meanwhile. *)
Definition api_health (env : Env) : HealthReport * list string :=
  let '(servicesWorking, requests) := testServices env in
  (mkHealth (if servicesWorking then "healthy" else "degraded")
            (Date_toISOString env)
            (token_set env)
            servicesWorking,
   requests).

(* ===================================================================== *)
(** ** Browser speech recognition results (frontend VoiceTranslator.jsx,
       [recognition.onresult]) *)
(* ===================================================================== *)

(** [event.results[i]]: the transcript of its first alternative, and
    whether the result is final. *)
Record SpeechResult := mkSpeechResult {
  transcript : string;
  isFinal : bool
}.

(** The [for] loop over the results, carrying [interimTranscript] and
    [finalTranscript]. *)
Fixpoint onresult_loop (results : list SpeechResult)
    (interimTranscript finalTranscript : string) : string * string :=
  match results with
  | [] => (interimTranscript, finalTranscript)
  | r :: rest =>
      if isFinal r
      then onresult_loop rest interimTranscript
             (finalTranscript +:+ (transcript r +:+ " "))
      else onresult_loop rest (interimTranscript +:+ transcript r)
             finalTranscript
  end.

(** [onresult(event)]: the transcript shown ([finalTranscript ||
    interimTranscript]) and the text handed to [translateText], if any. *)
Definition onresult (resultIndex : nat) (results : list SpeechResult)
  : string * option string :=
  let '(interimTranscript, finalTranscript) :=
    onresult_loop (drop resultIndex results) "" "" in
  if String.eqb finalTranscript ""
  then (interimTranscript, None)
  else (finalTranscript, Some finalTranscript).
(* ===================================================================== *)
(** ** Vocabulary for statements about traces and provider replies *)
(* ===================================================================== *)

(** The state once the events [evs] have happened (file system untouched). *)
Definition after (st : State) (evs : list Event) : State :=
  mkState (trace st ++ evs) (fs st).

(** The Hugging Face request a translation leg sends. *)
Definition leg_post (model : string) (inputText : JsVal) : Event :=
  EvPost model (translation_payload inputText).

Definition stt_post (audioBuffer : Buffer) (model : string) : Event :=
  EvPost model (BodyBytes audioBuffer).

Definition tts_post (text : JsVal) (model : string) : Event :=
  EvPost model (BodyJson (tts_payload text)).

Definition is_post (ev : Event) : bool :=
  match ev with EvPost _ _ => true | _ => false end.

(** A call to a translation provider: the Google client, or a Helsinki-NLP
    model on Hugging Face. *)
Definition is_translation_call (ev : Event) : bool :=
  match ev with
  | EvGoogleTranslate _ _ _ => true
  | EvPost model _ => String.prefix "Helsinki-NLP/opus-mt-" model
  | _ => false
  end.

(** The socket events of a trace, in order. *)
Definition emitted (evs : list Event) : list SocketEvent :=
  omap (fun ev => match ev with EvEmit e => Some e | _ => None end) evs.

(** The transcript the speech-to-text loop accepts from a reply, if any. *)
Definition stt_text_of (r : Reply JsVal) : option string :=
  match r with
  | Ok data => if truthy data then as_string (js_prop data "text") else None
  | Failed _ => None
  end.

(** The audio the fallback synthesis loop accepts from a reply, if any
    (more than 100 bytes). *)
Definition tts_audio_of (r : Reply Buffer) : option Buffer :=
  match r with
  | Ok data => if 100 <? Z.of_nat (length data) then Some data else None
  | Failed _ => None
  end.


(** What [doTranslation] makes of a reply. *)
Definition translation_of (r : Reply JsVal) : Outcome JsVal :=
  match r with
  | Failed e => Throw e
  | Ok data =>
      if truthy data then
        if isArray data && truthy (js_opt_prop (js_index0 data) "translation_text")
        then Return (js_prop (js_index0 data) "translation_text")
        else
          match as_string (js_prop data "translation") with
          | Some s => Return (JStr s)
          | None =>
              match as_string data with
              | Some s => Return (JStr s)
              | None => Throw (Error "Invalid response format from translation model")
              end
          end
      else Throw (Error "Invalid response format from translation model")
  end.

(** A translation leg counts for the router when it returns a truthy
    value. *)
Definition leg_ok (o : Outcome JsVal) : option JsVal :=
  match o with
  | Return v => if truthy v then Some v else None
  | _ => None
  end.

(** What the world answers to [model] once the models [called] of the
    chain have been tried from state [st]. *)
Definition stt_answer (w : World) (audioBuffer : Buffer) (st : State)
    (called : list string) (model : string) : option string :=
  stt_text_of
    (axios_post_json w (trace st ++ map (stt_post audioBuffer) called) model
       (BodyBytes audioBuffer)).

Definition tts_answer (w : World) (text : JsVal) (st : State)
    (called : list string) (model : string) : option Buffer :=
  tts_audio_of
    (axios_post_arraybuffer w (trace st ++ map (tts_post text) called) model
       (tts_payload text)).

(** What the translation model [model] makes of [inputText] once the
    events [done] have followed state [st]. *)
Definition leg_answer (w : World) (st : State) (done : list Event)
    (model : string) (inputText : JsVal) : option JsVal :=
  leg_ok (translation_of
            (axios_post_json w (trace st ++ done) model
               (translation_payload inputText))).

(** Every model of the list fails, each asked after its predecessors. *)
Definition stt_all_fail (w : World) (audioBuffer : Buffer) (st : State)
    (models : list string) : Prop :=
  forall i m, models !! i = Some m ->
    stt_answer w audioBuffer st (take i models) m = None.

Definition tts_all_fail (w : World) (text : JsVal) (st : State)
    (models : list string) : Prop :=
  forall i m, models !! i = Some m ->
    tts_answer w text st (take i models) m = None.

(** The names [modelMap] inherits from [Object.prototype]. *)
Definition inherited_names : list string := Object_prototype.*1.

(** Every name a synthesis request can go to. *)
Definition synthesis_models : list string :=
  (map_to_list modelMap).*2 ++ Object_prototype.*2 ++ fallbackModels.

(** The language codes of [modelMap]. *)
Definition tts_languages : list string :=
  [ "es"; "fr"; "de"; "ja"; "hi"; "it"; "ru"; "zh"; "ur" ].

Definition mock_audio : Buffer := Buffer_from_string "mock-audio-data".

Definition mock_transcript : string :=
  "This is a test translation from the mock service".

(** The temporary file [textToSpeechWithGoogle] picks when called in state
    [st]. *)
Definition gtts_path (w : World) (st : State) (text : JsVal) (lang : string)
  : string :=
  tmpdir w +:+ "/tts-"
  +:+ pretty (Date_now w (trace st ++ [EvGttsNew text lang])) +:+ ".mp3".

(** The gTTS call made in state [st] hangs: the constructor does not
    throw and [speech.save] never calls back, so that the promise of
    [textToSpeechWithGoogle] is never settled. *)
Definition gtts_hangs (w : World) (text : JsVal) (lang : string)
    (st : State) : Prop :=
  gtts_new w (trace st) text lang = None /\
  exists part,
    gtts_save w (trace st ++ [EvGttsNew text lang]) text lang
      (gtts_path w st text lang)
    = SaveNoCallback part.

Definition is_emit (ev : Event) : bool :=
  match ev with EvEmit _ => true | _ => false end.

(** All that [m] adds to the trace, from any state and whatever its
    outcome, are events satisfying [P]. *)
Definition only (P : Event -> Prop) {A} (m : M A) : Prop :=
  forall st, exists evs, trace (snd (m st)) = trace st ++ evs /\ Forall P evs.

Definition not_emit (ev : Event) : Prop := is_emit ev = false.

Definition not_translation_call (ev : Event) : Prop :=
  is_translation_call ev = false.

(** [m] always settles, and what it returns satisfies [Q]. *)
Definition yields {A} (Q : A -> Prop) (m : M A) : Prop :=
  forall st,
    match fst (m st) with
    | Return a => Q a
    | Throw _ => True
    | Pending => False
    end.

(** [m] always returns, and what it returns satisfies [Q]. *)
Definition returns {A} (Q : A -> Prop) (m : M A) : Prop :=
  forall st, exists a st', m st = (Return a, st') /\ Q a.

Definition not_nullish (v : JsVal) : Prop := nullish v = false.

(* ===================================================================== *)
(** ** Concrete worlds and inputs *)
(* ===================================================================== *)

Definition network_error : JsError := Error "Network Error".

Definition not_found : JsError := Error "Request failed with status code 404".

(** A world without Google credentials, whose Hugging Face replies depend
    on the model only, and in which gTTS always ends the same way; the
    clock and the temporary directory are fixed. *)
Definition world_with (json : string -> Reply JsVal)
    (arraybuffer : string -> Reply Buffer) (save : SaveOutcome) : World :=
  mkWorld false
    (fun _ _ => Failed network_error)
    (fun _ _ _ _ => Failed network_error)
    (fun _ model _ => json model)
    (fun _ model _ => arraybuffer model)
    (fun _ _ _ => None)
    (fun _ _ _ _ => save)
    (fun _ => 1700000000000)
    "/tmp".

(** Every provider fails: every HTTP request errors, gTTS cannot save. *)
Definition all_down : World :=
  world_with (fun _ => Failed network_error) (fun _ => Failed network_error)
    (SaveErr network_error None).

Definition audio_101 : Buffer := repeat x01 101.

(** Synthesis is down except for the espnet model, which answers with 101
    bytes of audio. *)
Definition espnet_only : World :=
  world_with (fun _ => Failed network_error)
    (fun model =>
       if String.eqb model "espnet/kan-bayashi_ljspeech_vits"
       then Ok audio_101 else Failed network_error)
    (SaveErr network_error None).

(** gTTS starts writing the mp3, then the disk is full: [save] calls back
    with an error and the partly written file stays on disk. *)
Definition disk_full : World :=
  world_with (fun _ => Failed network_error) (fun _ => Failed network_error)
    (SaveErr (Error "ENOSPC: no space left on device, write")
             (Some [x49; x44; x33])).

Definition translation_reply (s : string) : Reply JsVal :=
  Ok (JArr [JObj [("translation_text", JStr s)]]).

(** No direct French-Korean model; the French-English and English-Korean
    models answer. *)
Definition pivot_world : World :=
  world_with
    (fun model =>
       if String.eqb model "Helsinki-NLP/opus-mt-fr-en" then translation_reply "hello"
       else if String.eqb model "Helsinki-NLP/opus-mt-en-ko" then translation_reply "annyeong"
       else Failed not_found)
    (fun _ => Failed network_error)
    (SaveErr network_error None).

(** Every provider is down and the request of gTTS hangs: [save] never
    calls back. *)
Definition gtts_silent : World :=
  world_with (fun _ => Failed network_error) (fun _ => Failed network_error)
    (SaveNoCallback None).

(** No direct French-Korean model; the French-English model answers, the
    English-Korean model does not exist. *)
Definition second_leg_down : World :=
  world_with
    (fun model =>
       if String.eqb model "Helsinki-NLP/opus-mt-fr-en" then translation_reply "hello"
       else Failed not_found)
    (fun _ => Failed network_error)
    (SaveErr network_error None).


Definition mp3_200 : Buffer := repeat xff 200.

(** Everything works: whisper-base transcribes, the direct English-Spanish
    model translates, gTTS synthesizes. *)
Definition all_up : World :=
  world_with
    (fun model =>
       if String.eqb model "openai/whisper-base" then Ok (JObj [("text", JStr "hello")])
       else if String.eqb model "Helsinki-NLP/opus-mt-en-es" then translation_reply "hola"
       else Failed not_found)
    (fun _ => Failed network_error)
    (SaveOk mp3_200).

Definition empty_state : State := mkState [] ∅.

(** One kilobyte of silence. *)
Definition silence_1000 : Buffer := repeat x00 1000.

(** A well-formed job: a kilobyte of audio, English to Spanish. *)
Definition english_to_spanish : AudioStream :=
  mkAudioStream (Some (AudioBuffer silence_1000)) (Some "en") (Some "es").

(** Half a kilobyte of silence, English to Spanish. *)
Definition too_short : AudioStream :=
  mkAudioStream (Some (AudioBuffer (repeat x00 500))) (Some "en") (Some "es").

(* ===================================================================== *)
(** ** Further vocabulary: requests, stages, frames and bounds *)
(* ===================================================================== *)

(** The request [detectLanguageWithHuggingFace] sends. *)
Definition detect_request (text : string) : Event :=
  EvPost detect_model (BodyJson (JObj [("inputs", JStr text)])).

(** Strategies 1 and 2 of the router: the direct model, then the pivot. *)
Definition direct_then_pivot (w : World) (text : string) (sourceLang : JsVal)
    (targetLang : string) : M JsVal :=
  d <- direct_translation w text (opus_mt (js_to_string sourceLang) targetLang) ;;
  match d with
  | Some translatedText => ret translatedText
  | None => pivot_translation w text sourceLang targetLang
  end.

Definition is_google_translate (ev : Event) : bool :=
  match ev with EvGoogleTranslate _ _ _ => true | _ => false end.

(** Events of the transcription stage: a request carrying the audio bytes,
    or the progress event. *)
Definition is_stt_event (ev : Event) : bool :=
  match ev with
  | EvPost _ (BodyBytes _) => true
  | EvEmit (TranscriptionUpdate _) => true
  | _ => false
  end.

(** Events of the detection stage. *)
Definition is_detect_event (ev : Event) : bool :=
  match ev with
  | EvGoogleDetect _ => true
  | EvPost model (BodyJson _) => String.eqb model detect_model
  | _ => false
  end.

(** Events of the synthesis stage: gTTS and its temporary file, or a JSON
    request to one of the names a synthesis request can go to. *)
Definition is_synthesis_event (ev : Event) : bool :=
  match ev with
  | EvGttsNew _ _ | EvGttsSave _ | EvReadFile _ | EvUnlink _ => true
  | EvPost model (BodyJson _) => bool_decide (model ∈ synthesis_models)
  | _ => false
  end.

(** The Hugging Face requests of a trace, in order. *)
Definition posts (evs : list Event) : list (string * Body) :=
  omap (fun ev => match ev with EvPost m b => Some (m, b) | _ => None end) evs.

(** [m] sends at most [n] Hugging Face requests, from any state. *)
Definition posts_at_most (n : nat) {A} (m : M A) : Prop :=
  forall st, exists evs,
    trace (snd (m st)) = trace st ++ evs /\ (length (posts evs) <= n)%nat.

(** [m] leaves the file system as it is, from any state. *)
Definition keeps_fs {A} (m : M A) : Prop :=
  forall st, fs (snd (m st)) = fs st.

(** A name [textToSpeechWithGoogle] can give its temporary file. *)
Definition is_tmp_name (w : World) (path : string) : Prop :=
  exists n : Z, path = tmpdir w +:+ "/tts-" +:+ pretty n +:+ ".mp3".


Definition detection_failed_message (cause : string) : string :=
  "Language detection failed: " +:+ cause
  +:+ ". Please select a source language manually.".

(** Google Translate is configured and answers; Hugging Face is down. *)
Definition google_up : World :=
  mkWorld true
    (fun _ _ => Ok (JStr "ja"))
    (fun _ _ _ _ => Ok "konnichiwa")
    (fun _ _ _ => Failed (Error "Network Error"))
    (fun _ _ _ => Failed (Error "Network Error"))
    (fun _ _ _ => None)
    (fun _ _ _ _ => SaveErr (Error "Network Error") None)
    (fun _ => 1700000000000)
    "/tmp".

(** A kilobyte of audio, the source language left to detection. *)
Definition auto_to_spanish : AudioStream :=
  mkAudioStream (Some (AudioBuffer (repeat x00 1000))) None (Some "es").

Definition env_healthy : Env :=
  mkEnv (Some "hf_token") (Ok (JArr [])) "2025-01-01T00:00:00.000Z".

(** Events of the translation stage: the Google client, or a JSON request
    to a Helsinki-NLP model. *)
Definition is_translation_event (ev : Event) : bool :=
  match ev with
  | EvGoogleTranslate _ _ _ => true
  | EvPost model (BodyJson _) => String.prefix "Helsinki-NLP/opus-mt-" model
  | _ => false
  end.

(** How many of the four stages an event can belong to. *)
Definition stages_of (ev : Event) : nat :=
  (Nat.b2n (is_stt_event ev) + Nat.b2n (is_detect_event ev)
   + Nat.b2n (is_translation_event ev) + Nat.b2n (is_synthesis_event ev))%nat.

(** Detection works (the text is French) and so does the French-English
    model; every other request fails, and so does gTTS. *)
Definition detection_only : World :=
  mkWorld false
    (fun _ _ => Failed (Error "Network Error"))
    (fun _ _ _ _ => Failed (Error "Network Error"))
    (fun _ model _ =>
       if String.eqb model detect_model
       then Ok (JArr [JArr [JObj [("label", JStr "fr"); ("score", JNum 1)]]])
       else if String.eqb model "Helsinki-NLP/opus-mt-fr-en"
       then Ok (JArr [JObj [("translation_text", JStr "hello")]])
       else Failed (Error "Network Error"))
    (fun _ _ _ => Failed (Error "Network Error"))
    (fun _ _ _ => None)
    (fun _ _ _ _ => SaveErr (Error "Network Error") None)
    (fun _ => 1700000000000)
    "/tmp".

(** The transcripts of the final results, each followed by a space, and
    the transcripts of the others, joined in order. *)
Fixpoint finals_joined (results : list SpeechResult) : string :=
  match results with
  | [] => ""
  | r :: rest =>
      if isFinal r then transcript r +:+ " " +:+ finals_joined rest
      else finals_joined rest
  end.

Fixpoint interims_joined (results : list SpeechResult) : string :=
  match results with
  | [] => ""
  | r :: rest =>
      if isFinal r then interims_joined rest
      else transcript r +:+ interims_joined rest
  end.

(* ===================================================================== *)
(** ** Basic facts *)
(* ===================================================================== *)

Lemma after_nil st : after st [] = st.
Proof. destruct st; unfold after; simpl. by rewrite app_nil_r. Qed.

Lemma after_after st a b : after (after st a) b = after st (a ++ b).
Proof. unfold after; simpl. by rewrite app_assoc. Qed.

Lemma emitted_app a b : emitted (a ++ b) = emitted a ++ emitted b.
Proof. apply omap_app. Qed.

(* ===================================================================== *)
(** ** Input validation and the socket handler's guard *)
(* ===================================================================== *)

(** The size check of line 97, before anything else happens. *)
Lemma pipeline_size_check (w : World) audioData sourceLang targetLang socket st :
  (Z.of_nat (length (to_audioBuffer audioData)) <? 1000) = true ->
  processAudioPipeline w audioData sourceLang targetLang socket st
  = (Throw (Error "Audio buffer too small - may be empty"), st).
Proof.
  intros Hsmall. unfold processAudioPipeline, try_catch. by rewrite Hsmall.
Qed.

(** C2. An audio payload of fewer than 1000 bytes (the empty payload
    included) makes [processAudioPipeline] throw
    "Audio buffer too small - may be empty" in the very state it was
    called in: the trace is unchanged, so no speech-to-text, detection,
    translation or synthesis provider has been invoked. *)
Theorem small_audio_rejected_before_any_provider
    (w : World) (audioData : AudioData) (sourceLang targetLang : string)
    (socket : bool) (st : State) :
  Z.of_nat (length (to_audioBuffer audioData)) < 1000 ->
  processAudioPipeline w audioData sourceLang targetLang socket st
  = (Throw (Error "Audio buffer too small - may be empty"), st).
Proof.
  intros Hsmall. apply pipeline_size_check. by apply Z.ltb_lt.
Qed.

Lemma small_audio_rejected_witness :
  processAudioPipeline all_down (AudioBuffer (repeat x00 999)) "en" "es" true empty_state
  = (Throw (Error "Audio buffer too small - may be empty"), empty_state).
Proof.
  apply small_audio_rejected_before_any_provider. vm_compute. reflexivity.
Defined.

(** An [audio-stream] event whose payload has no [audio] field makes the
    handler emit exactly one event, [error] with the message
    "No audio data received.", and nothing else happens: the new trace is
    the old one followed by that single emit, and the file system is
    untouched. *)
Lemma missing_audio_field_emits_error_only
    (w : World) (data : AudioStream) (st : State) :
  stream_audio data = None ->
  on_audio_stream w (Some data) st
  = (Return tt, after st [EvEmit (ErrorEvent "No audio data received.")]).
Proof.
  intros Hnone. unfold on_audio_stream. by rewrite Hnone.
Qed.

(** C8 (the code misses the event without payload).  An [audio-stream]
    event sent without any payload has no [audio] field either, but the
    handler never reaches its guard: destructuring [data] throws, outside
    the [try], and the handler ends with that [TypeError] in the state it
    started in.  No [error] event, nor any other, is emitted. *)
Theorem payloadless_event_emits_nothing (w : World) (st : State) :
  on_audio_stream w None st
  = (Throw (Error "Cannot destructure property 'audio' of 'data' as it is undefined."),
     st)
  /\ emitted (trace (snd (on_audio_stream w None st))) = emitted (trace st).
Proof. done. Qed.

(* ===================================================================== *)
(** ** Fallback chains: the two model loops *)
(* ===================================================================== *)

Section Chains.

Variable w : World.

Lemma stt_loop_step audioBuffer model rest st :
  stt_loop w audioBuffer (model :: rest) st
  = match stt_answer w audioBuffer st [] model with
    | Some text => (Return text, after st [stt_post audioBuffer model])
    | None => stt_loop w audioBuffer rest (after st [stt_post audioBuffer model])
    end.
Proof.
  unfold stt_answer, stt_text_of. simpl. rewrite app_nil_r.
  unfold bind, post_json. fold (after st [stt_post audioBuffer model]).
  destruct (axios_post_json w (trace st) model (BodyBytes audioBuffer)) as [data|e];
    [|done].
  destruct (truthy data); [|done].
  by destruct (as_string (js_prop data "text")).
Qed.

Lemma tts_fallback_loop_step text model rest st :
  tts_fallback_loop w text (model :: rest) st
  = match tts_answer w text st [] model with
    | Some data => (Return data, after st [tts_post text model])
    | None => tts_fallback_loop w text rest (after st [tts_post text model])
    end.
Proof.
  unfold tts_answer, tts_audio_of. simpl. rewrite app_nil_r.
  unfold bind, post_arraybuffer. fold (after st [tts_post text model]).
  destruct (axios_post_arraybuffer w (trace st) model (tts_payload text)) as [data|e];
    [|done].
  by destruct (100 <? Z.of_nat (length data)).
Qed.

Lemma stt_answer_shift audioBuffer st model called m :
  stt_answer w audioBuffer (after st [stt_post audioBuffer model]) called m
  = stt_answer w audioBuffer st (model :: called) m.
Proof. unfold stt_answer, after. simpl. by rewrite <- app_assoc. Qed.

Lemma tts_answer_shift text st model called m :
  tts_answer w text (after st [tts_post text model]) called m
  = tts_answer w text st (model :: called) m.
Proof. unfold tts_answer, after. simpl. by rewrite <- app_assoc. Qed.

Lemma stt_all_fail_cons audioBuffer st model rest :
  stt_all_fail w audioBuffer st (model :: rest) <->
  stt_answer w audioBuffer st [] model = None /\
  stt_all_fail w audioBuffer (after st [stt_post audioBuffer model]) rest.
Proof.
  unfold stt_all_fail. split.
  - intros H. split; [exact (H 0%nat model eq_refl)|].
    intros i m Hi. rewrite stt_answer_shift. exact (H (S i) m Hi).
  - intros [H0 Hrest] [|i] m Hi; simpl in *.
    + by inversion Hi; subst.
    + rewrite <- stt_answer_shift. by apply Hrest.
Qed.

Lemma tts_all_fail_cons text st model rest :
  tts_all_fail w text st (model :: rest) <->
  tts_answer w text st [] model = None /\
  tts_all_fail w text (after st [tts_post text model]) rest.
Proof.
  unfold tts_all_fail. split.
  - intros H. split; [exact (H 0%nat model eq_refl)|].
    intros i m Hi. rewrite tts_answer_shift. exact (H (S i) m Hi).
  - intros [H0 Hrest] [|i] m Hi; simpl in *.
    + by inversion Hi; subst.
    + rewrite <- tts_answer_shift. by apply Hrest.
Qed.

Lemma stt_loop_first_success audioBuffer pre model post st text :
  stt_all_fail w audioBuffer st pre ->
  stt_answer w audioBuffer st pre model = Some text ->
  stt_loop w audioBuffer (pre ++ model :: post) st
  = (Return text, after st (map (stt_post audioBuffer) (pre ++ [model]))).
Proof.
  revert st. induction pre as [|p pre IH]; intros st Hfail Hok.
  - simpl app. rewrite stt_loop_step, Hok. done.
  - apply stt_all_fail_cons in Hfail as [Hp Hrest].
    rewrite <- stt_answer_shift in Hok.
    change ((p :: pre) ++ model :: post) with (p :: (pre ++ model :: post)).
    rewrite stt_loop_step, Hp, (IH _ Hrest Hok), after_after. done.
Qed.

Lemma stt_loop_exhausted audioBuffer models st :
  stt_all_fail w audioBuffer st models ->
  stt_loop w audioBuffer models st
  = (Throw (Error "All STT models failed."),
     after st (map (stt_post audioBuffer) models)).
Proof.
  revert st. induction models as [|p models IH]; intros st Hfail.
  - simpl. by rewrite after_nil.
  - apply stt_all_fail_cons in Hfail as [Hp Hrest].
    rewrite stt_loop_step, Hp, (IH _ Hrest), after_after. done.
Qed.

(** The loop settles: it returns the first accepted transcript or throws
    after the last model. *)
Lemma stt_loop_cases audioBuffer models st :
  (exists pre model post text,
      models = pre ++ model :: post /\
      stt_all_fail w audioBuffer st pre /\
      stt_answer w audioBuffer st pre model = Some text) \/
  stt_all_fail w audioBuffer st models.
Proof.
  revert st. induction models as [|p models IH]; intros st.
  - right. intros i m Hi. by destruct i.
  - destruct (stt_answer w audioBuffer st [] p) as [text|] eqn:Hp.
    + left. exists [], p, models, text. split; [done|]. split; [|done].
      intros i m Hi. by destruct i.
    + destruct (IH (after st [stt_post audioBuffer p]))
        as [(pre & model & post & text & -> & Hfail & Hok)|Hfail].
      * left. exists (p :: pre), model, post, text. split; [done|].
        split; [by apply stt_all_fail_cons|]. by rewrite <- stt_answer_shift.
      * right. by apply stt_all_fail_cons.
Qed.

Lemma tts_fallback_loop_first_success text pre model post st data :
  tts_all_fail w text st pre ->
  tts_answer w text st pre model = Some data ->
  tts_fallback_loop w text (pre ++ model :: post) st
  = (Return data, after st (map (tts_post text) (pre ++ [model]))).
Proof.
  revert st. induction pre as [|p pre IH]; intros st Hfail Hok.
  - simpl app. rewrite tts_fallback_loop_step, Hok. done.
  - apply tts_all_fail_cons in Hfail as [Hp Hrest].
    rewrite <- tts_answer_shift in Hok.
    change ((p :: pre) ++ model :: post) with (p :: (pre ++ model :: post)).
    rewrite tts_fallback_loop_step, Hp, (IH _ Hrest Hok), after_after. done.
Qed.

Lemma tts_fallback_loop_exhausted text models st :
  tts_all_fail w text st models ->
  tts_fallback_loop w text models st
  = (Throw (Error "All TTS models failed"),
     after st (map (tts_post text) models)).
Proof.
  revert st. induction models as [|p models IH]; intros st Hfail.
  - simpl. by rewrite after_nil.
  - apply tts_all_fail_cons in Hfail as [Hp Hrest].
    rewrite tts_fallback_loop_step, Hp, (IH _ Hrest), after_after. done.
Qed.

Lemma tts_fallback_loop_cases text models st :
  (exists pre model post data,
      models = pre ++ model :: post /\
      tts_all_fail w text st pre /\
      tts_answer w text st pre model = Some data) \/
  tts_all_fail w text st models.
Proof.
  revert st. induction models as [|p models IH]; intros st.
  - right. intros i m Hi. by destruct i.
  - destruct (tts_answer w text st [] p) as [data|] eqn:Hp.
    + left. exists [], p, models, data. split; [done|]. split; [|done].
      intros i m Hi. by destruct i.
    + destruct (IH (after st [tts_post text p]))
        as [(pre & model & post & data & -> & Hfail & Hok)|Hfail].
      * left. exists (p :: pre), model, post, data. split; [done|].
        split; [by apply tts_all_fail_cons|]. by rewrite <- tts_answer_shift.
      * right. by apply tts_all_fail_cons.
Qed.

End Chains.

(** A chain [A; B; C] of synthesis fallbacks in which [A] fails and [B]
    succeeds: [B]'s audio is returned and only [A] and [B] were asked. *)
Lemma tts_fallback_A_fails_B_succeeds (w : World) text A B C st data :
  tts_answer w text st [] A = None ->
  tts_answer w text st [A] B = Some data ->
  tts_fallback_loop w text [A; B; C] st
  = (Return data, after st [tts_post text A; tts_post text B]).
Proof.
  intros HA HB.
  apply (tts_fallback_loop_first_success w text [A] B [C] st data); [|done].
  intros i m Hi. destruct i as [|i]; [|by destruct i].
  by injection Hi as <-.
Qed.

(** The same for the speech-to-text loop. *)
Lemma stt_A_fails_B_succeeds (w : World) audioBuffer A B C st text :
  stt_answer w audioBuffer st [] A = None ->
  stt_answer w audioBuffer st [A] B = Some text ->
  stt_loop w audioBuffer [A; B; C] st
  = (Return text, after st [stt_post audioBuffer A; stt_post audioBuffer B]).
Proof.
  intros HA HB.
  apply (stt_loop_first_success w audioBuffer [A] B [C] st text); [|done].
  intros i m Hi. destruct i as [|i]; [|by destruct i].
  by injection Hi as <-.
Qed.
(** C4. In both model loops (speech to text, and the synthesis fallbacks)
    the models are asked in list order; the output of the first model
    whose reply is accepted is returned, and the requests sent are exactly
    those to the models up to and including that one, so no later model is
    invoked.  The loop throws its "all models failed" error exactly when
    every model of the list fails, after having asked all of them. *)
Theorem first_success_wins (w : World) :
  (forall audioBuffer pre model post st text,
      stt_all_fail w audioBuffer st pre ->
      stt_answer w audioBuffer st pre model = Some text ->
      stt_loop w audioBuffer (pre ++ model :: post) st
      = (Return text, after st (map (stt_post audioBuffer) (pre ++ [model]))))
  /\
  (forall audioBuffer models st,
      (stt_all_fail w audioBuffer st models ->
       stt_loop w audioBuffer models st
       = (Throw (Error "All STT models failed."),
          after st (map (stt_post audioBuffer) models)))
      /\
      ((exists e st', stt_loop w audioBuffer models st = (Throw e, st')) ->
       stt_all_fail w audioBuffer st models))
  /\
  (forall text pre model post st data,
      tts_all_fail w text st pre ->
      tts_answer w text st pre model = Some data ->
      tts_fallback_loop w text (pre ++ model :: post) st
      = (Return data, after st (map (tts_post text) (pre ++ [model]))))
  /\
  (forall text models st,
      (tts_all_fail w text st models ->
       tts_fallback_loop w text models st
       = (Throw (Error "All TTS models failed"),
          after st (map (tts_post text) models)))
      /\
      ((exists e st', tts_fallback_loop w text models st = (Throw e, st')) ->
       tts_all_fail w text st models)).
Proof.
  split; [|split; [|split]].
  - intros. by apply stt_loop_first_success.
  - intros audioBuffer models st. split; [apply stt_loop_exhausted|].
    intros (e & st' & Hthrow).
    destruct (stt_loop_cases w audioBuffer models st)
      as [(pre & model & post & text & -> & Hfail & Hok)|Hfail]; [|done].
    rewrite (stt_loop_first_success _ _ _ _ _ _ _ Hfail Hok) in Hthrow.
    discriminate.
  - intros. by apply tts_fallback_loop_first_success.
  - intros text models st. split; [apply tts_fallback_loop_exhausted|].
    intros (e & st' & Hthrow).
    destruct (tts_fallback_loop_cases w text models st)
      as [(pre & model & post & data & -> & Hfail & Hok)|Hfail]; [|done].
    rewrite (tts_fallback_loop_first_success _ _ _ _ _ _ _ Hfail Hok) in Hthrow.
    discriminate.
Qed.

(** The chain [A; B; C] of the synthesis fallbacks with [A] failing and [B]
    succeeding: [B]'s audio is returned after requests to [A] and [B]
    only. *)
Lemma first_success_wins_witness :
  tts_fallback_loop espnet_only (JStr "hola") fallbackModels empty_state
  = (Return audio_101,
     after empty_state
       [ tts_post (JStr "hola") "suno/bark";
         tts_post (JStr "hola") "espnet/kan-bayashi_ljspeech_vits" ]).
Proof.
  apply (proj1 (proj2 (proj2 (first_success_wins espnet_only)))
           (JStr "hola") ["suno/bark"] "espnet/kan-bayashi_ljspeech_vits"
           ["microsoft/speecht5_tts"] empty_state audio_101).
  - intros i m Hi. destruct i as [|i]; [|destruct i; discriminate].
    injection Hi as <-. vm_compute. reflexivity.
  - vm_compute. reflexivity.
Defined.

(* ===================================================================== *)
(** ** Speech synthesis *)
(* ===================================================================== *)

(** [textToSpeechWithGoogle], case by case. *)
Lemma textToSpeechWithGoogle_eq (w : World) text lang st :
  textToSpeechWithGoogle w text lang st
  = match gtts_new w (trace st) text lang with
    | Some e => (Throw e, after st [EvGttsNew text lang])
    | None =>
        let path := gtts_path w st text lang in
        match gtts_save w (trace st ++ [EvGttsNew text lang]) text lang path with
        | SaveErr err part =>
            (Throw err,
             mkState (trace st ++ [EvGttsNew text lang; EvGttsSave path])
                     (match part with
                      | Some p => <[path := p]> (fs st)
                      | None => fs st
                      end))
        | SaveNoCallback part =>
            (Pending,
             mkState (trace st ++ [EvGttsNew text lang; EvGttsSave path])
                     (match part with
                      | Some p => <[path := p]> (fs st)
                      | None => fs st
                      end))
        | SaveOk mp3 =>
            (Return mp3,
             mkState (trace st ++ [EvGttsNew text lang; EvGttsSave path;
                                   EvReadFile path; EvUnlink path])
                     (delete path (<[path := mp3]> (fs st))))
        end
    end.
Proof.
  unfold textToSpeechWithGoogle, bind, new_gtts, tmp_file, speech_save, gtts_path.
  simpl.
  destruct (gtts_new w (trace st) text lang) as [e|]; [done|].
  simpl.
  destruct (gtts_save _ _ _ _ _) as [mp3|err part|part]; simpl.
  - unfold try_catch, bind, readFileSync, unlinkSync. simpl.
    rewrite lookup_insert_eq. simpl. rewrite lookup_insert_eq.
    by rewrite <- !app_assoc.
  - unfold throw. rewrite <- !app_assoc. by destruct part.
  - unfold never. rewrite <- !app_assoc. by destruct part.
Qed.

(** The gTTS promise stays pending exactly when the call hangs: a
    successful [save] has written the file that is then read and unlinked,
    so the callback itself never throws. *)
Lemma textToSpeechWithGoogle_pending (w : World) text lang st :
  fst (textToSpeechWithGoogle w text lang st) = Pending
  <-> gtts_hangs w text lang st.
Proof.
  rewrite textToSpeechWithGoogle_eq. unfold gtts_hangs, gtts_path.
  destruct (gtts_new _ _ _ _); [by split; [|intros [? _]]|]. simpl.
  destruct (gtts_save _ _ _ _ _) as [mp3|err part|part]; simpl.
  - split; [done|]. by intros [_ [? ?]].
  - split; [done|]. by intros [_ [? ?]].
  - split; [|done]. intros _. split; [done|]. by exists part.
Qed.

(** The gTTS attempt starts with the constructor call and sends nothing to
    Hugging Face. *)
Lemma textToSpeechWithGoogle_events (w : World) text lang st :
  exists gevs,
    trace (snd (textToSpeechWithGoogle w text lang st))
    = trace st ++ EvGttsNew text lang :: gevs /\
    Forall (fun ev => is_post ev = false) gevs.
Proof.
  rewrite textToSpeechWithGoogle_eq.
  destruct (gtts_new _ _ _ _); [by exists []|]. simpl.
  destruct (gtts_save _ _ _ _ _); simpl; eexists;
    (split; [reflexivity | by repeat constructor]).
Qed.

(** When [save] succeeds the file is gone afterwards, and it was saved,
    read and unlinked in that order. *)
Lemma textToSpeechWithGoogle_cleans_up_on_success (w : World) text lang st mp3 st' :
  textToSpeechWithGoogle w text lang st = (Return mp3, st') ->
  let path := gtts_path w st text lang in
  fs st' !! path = None /\
  trace st' = trace st ++ [EvGttsNew text lang; EvGttsSave path;
                           EvReadFile path; EvUnlink path].
Proof.
  rewrite textToSpeechWithGoogle_eq.
  destruct (gtts_new _ _ _ _); [done|]. simpl.
  destruct (gtts_save _ _ _ _ _); [|done..].
  intros [= <- <-]. simpl. split; [apply lookup_delete_eq | done].
Qed.

(** When [save] calls back with an error, nothing is read or unlinked:
    whatever [save] left on disk stays there. *)
Lemma textToSpeechWithGoogle_no_cleanup_on_save_error (w : World) text lang st :
  gtts_new w (trace st) text lang = None ->
  let path := gtts_path w st text lang in
  forall err part,
    gtts_save w (trace st ++ [EvGttsNew text lang]) text lang path
    = SaveErr err (Some part) ->
    exists st',
      textToSpeechWithGoogle w text lang st = (Throw err, st') /\
      fs st' !! path = Some part /\
      trace st' = trace st ++ [EvGttsNew text lang; EvGttsSave path].
Proof.
  intros Hnew path err part Hsave.
  rewrite textToSpeechWithGoogle_eq, Hnew. simpl. fold path. rewrite Hsave.
  eexists. split; [done|]. simpl. split; [apply lookup_insert_eq | done].
Qed.

(** C9 (the code leaves the file behind).  gTTS fails while writing on a
    full disk: [textToSpeechWithGoogle] rejects with the error of [save],
    the partly written temporary file is still on disk afterwards, and no
    [unlinkSync] was ever issued. *)
Theorem google_tts_leaves_temp_file_on_save_error :
  exists st',
    textToSpeechWithGoogle disk_full (JStr "hola") "es" empty_state
    = (Throw (Error "ENOSPC: no space left on device, write"), st') /\
    fs st' !! "/tmp/tts-1700000000000.mp3" = Some [x49; x44; x33] /\
    trace st' = [ EvGttsNew (JStr "hola") "es";
                  EvGttsSave "/tmp/tts-1700000000000.mp3" ].
Proof.
  eexists. split; [vm_compute; reflexivity|].
  split; vm_compute; reflexivity.
Qed.



Lemma modelMap_unlisted targetLang :
  targetLang ∉ tts_languages -> modelMap !! targetLang = None.
Proof. intros Hnot. apply not_elem_of_list_to_map_1. exact Hnot. Qed.

Lemma inherited_None targetLang :
  targetLang ∉ inherited_names -> inherited targetLang = None.
Proof. intros Hnot. apply not_elem_of_list_to_map_1. exact Hnot. Qed.


Lemma tts_model_unlisted targetLang :
  targetLang ∉ tts_languages ->
  tts_model targetLang = default "facebook/mms-tts-spa" (inherited targetLang).
Proof.
  intros Hnot. unfold tts_model. rewrite (modelMap_unlisted _ Hnot).
  by destruct (inherited targetLang).
Qed.

(** [synthesize] in terms of its two providers: gTTS first; the Hugging
    Face chain from the state gTTS left, when gTTS threw; the mock audio
    when that chain threw as well. *)
Lemma synthesize_eq (w : World) text targetLang st :
  synthesize w text targetLang st
  = match textToSpeechWithGoogle w text targetLang st with
    | (Return audio, stG) => (Return audio, stG)
    | (Pending, stG) => (Pending, stG)
    | (Throw _, stG) =>
        match textToSpeechWithHuggingFace w text targetLang stG with
        | (Return audio, stH) => (Return audio, stH)
        | (Pending, stH) => (Pending, stH)
        | (Throw _, stH) => (Return mock_audio, stH)
        end
    end.
Proof.
  unfold synthesize, try_catch.
  destruct (textToSpeechWithGoogle w text targetLang st) as [[a|e|] stG]; [done| |done].
  by destruct (textToSpeechWithHuggingFace w text targetLang stG) as [[a|e'|] stH].
Qed.




(* ===================================================================== *)
(** ** Translation *)
(* ===================================================================== *)

Lemma truthy_not_nullish v : truthy v = true -> nullish v = false.
Proof. by destruct v. Qed.

Lemma doTranslation_eq (w : World) inputText model st :
  doTranslation w inputText model st
  = (translation_of (axios_post_json w (trace st) model (translation_payload inputText)),
     after st [leg_post model inputText]).
Proof.
  unfold doTranslation, try_catch, bind, post_json, translation_of.
  fold (leg_post model inputText). fold (after st [leg_post model inputText]).
  destruct (axios_post_json _ _ _ _) as [data|e]; [|done].
  destruct (truthy data); [|done].
  destruct (isArray data && _); [done|].
  destruct (as_string (js_prop data "translation")); [done|].
  by destruct (as_string data).
Qed.

Lemma translation_of_settles r : translation_of r <> Pending.
Proof.
  unfold translation_of. destruct r as [data|e]; [|done].
  destruct (truthy data); [|done].
  destruct (isArray data && _); [done|].
  destruct (as_string (js_prop data "translation")); [done|].
  by destruct (as_string data).
Qed.

Lemma translation_of_not_nullish r v :
  translation_of r = Return v -> nullish v = false.
Proof.
  unfold translation_of. destruct r as [data|e]; [|done].
  destruct (truthy data); [|done].
  destruct (isArray data && _) eqn:Harr.
  - intros [= <-]. apply andb_true_iff in Harr as [_ Ht].
    unfold js_opt_prop in Ht. destruct (nullish (js_index0 data)); [done|].
    by apply truthy_not_nullish.
  - destruct (as_string (js_prop data "translation")); [by intros [= <-]|].
    destruct (as_string data); [by intros [= <-]|done].
Qed.

Lemma direct_translation_eq (w : World) text model st :
  direct_translation w text model st
  = (Return (leg_answer w st [] model (JStr text)),
     after st [leg_post model (JStr text)]).
Proof.
  unfold direct_translation, try_catch, bind, leg_answer, leg_ok.
  rewrite doTranslation_eq, app_nil_r.
  pose proof (translation_of_settles
                (axios_post_json w (trace st) model (translation_payload (JStr text)))).
  destruct (translation_of _) as [v|e|]; [|done|done].
  by destruct (truthy v).
Qed.

Lemma google_for_japanese_skipped (w : World) text source targetLang st :
  source <> "ja" -> targetLang <> "ja" ->
  google_for_japanese w text (JStr source) targetLang st = (Return None, st).
Proof.
  intros Hs Ht. unfold google_for_japanese, strict_eq_str.
  apply String.eqb_neq in Hs, Ht. by rewrite Hs, Ht.
Qed.

Lemma pivot_translation_english (w : World) text source targetLang st :
  source = "en" \/ targetLang = "en" ->
  pivot_translation w text (JStr source) targetLang st
  = (Throw (Error "All translation strategies failed."), st).
Proof.
  intros Hen. unfold pivot_translation, strict_eq_str.
  destruct Hen as [-> | ->]; [done|].
  rewrite String.eqb_refl. by rewrite andb_false_r.
Qed.

Lemma pivot_translation_eq (w : World) text source targetLang st :
  source <> "en" -> targetLang <> "en" ->
  let first := leg_post (opus_mt source "en") (JStr text) in
  pivot_translation w text (JStr source) targetLang st
  = match translation_of
            (axios_post_json w (trace st) (opus_mt source "en")
               (translation_payload (JStr text))) with
    | Return textInEnglish =>
        if truthy textInEnglish then
          let second := leg_post (opus_mt "en" targetLang) textInEnglish in
          match translation_of
                  (axios_post_json w (trace st ++ [first]) (opus_mt "en" targetLang)
                     (translation_payload textInEnglish)) with
          | Return translatedText =>
              if truthy translatedText
              then (Return translatedText, after st [first; second])
              else (Throw (Error "All translation strategies failed."),
                    after st [first; second])
          | Throw e => (Throw e, after st [first; second])
          | Pending => (Pending, after st [first; second])
          end
        else (Throw (Error "All translation strategies failed."), after st [first])
    | Throw e => (Throw e, after st [first])
    | Pending => (Pending, after st [first])
    end.
Proof.
  intros Hs Ht first. unfold pivot_translation, strict_eq_str.
  apply String.eqb_neq in Hs, Ht. rewrite Hs, Ht. simpl.
  unfold bind. rewrite doTranslation_eq. fold first.
  destruct (translation_of _) as [v|e|]; [|done|done].
  destruct (truthy v); [|done].
  rewrite doTranslation_eq, after_after. simpl.
  destruct (translation_of _) as [v'|e'|]; [|done|done].
  by destruct (truthy v').
Qed.

(** C5 (as the code has it).  With Japanese not involved and the direct
    model for the pair failing (its request throws, or gives nothing
    truthy): when both languages differ from English the router asks the
    source-to-English model for the text, then the English-to-target model
    for what the first leg returned, and returns the second leg's output,
    having sent exactly these three requests in this order.  A leg that
    throws ends the router with that leg's own error, the second leg not
    being asked when it is the first that threw; a leg that returns
    nothing truthy ends it with "All translation strategies failed.".
    When the source or the target is English no pivot request is sent at
    all: the router throws "All translation strategies failed." right
    after the direct attempt. *)
Theorem pivot_through_english
    (w : World) (text source targetLang : string) (st : State) :
  source <> "ja" -> targetLang <> "ja" ->
  let direct := leg_post (opus_mt source targetLang) (JStr text) in
  let first := leg_post (opus_mt source "en") (JStr text) in
  let exhausted := Error "All translation strategies failed." in
  leg_answer w st [] (opus_mt source targetLang) (JStr text) = None ->
  (source <> "en" /\ targetLang <> "en" ->
   translateWithHuggingFace w text (JStr source) targetLang st
   = match translation_of
             (axios_post_json w (trace st ++ [direct]) (opus_mt source "en")
                (translation_payload (JStr text))) with
     | Return textInEnglish =>
         if truthy textInEnglish then
           let second := leg_post (opus_mt "en" targetLang) textInEnglish in
           match translation_of
                   (axios_post_json w (trace st ++ [direct; first])
                      (opus_mt "en" targetLang)
                      (translation_payload textInEnglish)) with
           | Return translatedText =>
               if truthy translatedText
               then (Return translatedText, after st [direct; first; second])
               else (Throw exhausted, after st [direct; first; second])
           | Throw e => (Throw e, after st [direct; first; second])
           | Pending => (Pending, after st [direct; first; second])
           end
         else (Throw exhausted, after st [direct; first])
     | Throw e => (Throw e, after st [direct; first])
     | Pending => (Pending, after st [direct; first])
     end
   /\ fst (translateWithHuggingFace w text (JStr source) targetLang st) <> Pending)
  /\
  (source = "en" \/ targetLang = "en" ->
   translateWithHuggingFace w text (JStr source) targetLang st
   = (Throw exhausted, after st [direct])).
Proof.
  intros Hsja Htja direct first exhausted Hdirect.
  assert (translateWithHuggingFace w text (JStr source) targetLang st
          = pivot_translation w text (JStr source) targetLang (after st [direct]))
    as Hrouter.
  { unfold translateWithHuggingFace, bind.
    rewrite google_for_japanese_skipped by done. simpl js_to_string.
    rewrite direct_translation_eq. fold direct. by rewrite Hdirect. }
  rewrite Hrouter. split.
  - intros [Hs Ht]. rewrite pivot_translation_eq by done.
    cbv zeta. fold first. simpl trace.
    pose proof (translation_of_settles
      (axios_post_json w (trace st ++ [direct]) (opus_mt source "en")
         (translation_payload (JStr text)))) as Hset1.
    destruct (translation_of _) as [v|e|]; [|by rewrite after_after|done].
    destruct (truthy v); [|by rewrite after_after].
    rewrite <- app_assoc. simpl app.
    pose proof (translation_of_settles
      (axios_post_json w (trace st ++ [direct; first]) (opus_mt "en" targetLang)
         (translation_payload v))) as Hset2.
    destruct (translation_of _) as [v'|e'|]; [|by rewrite after_after|done].
    destruct (truthy v'); by rewrite after_after.
  - intros Hen. by rewrite pivot_translation_english.
Qed.

(** French to Korean without a direct model: "bonjour" goes to the
    fr-en model, its answer "hello" to the en-ko model, whose answer is
    returned. *)
Lemma pivot_through_english_witness :
  translateWithHuggingFace pivot_world "bonjour" (JStr "fr") "ko" empty_state
  = (Return (JStr "annyeong"),
     after empty_state
       [ leg_post "Helsinki-NLP/opus-mt-fr-ko" (JStr "bonjour");
         leg_post "Helsinki-NLP/opus-mt-fr-en" (JStr "bonjour");
         leg_post "Helsinki-NLP/opus-mt-en-ko" (JStr "hello") ]).
Proof.
  assert ("fr" <> "ja") as Hs by discriminate.
  assert ("ko" <> "ja") as Ht by discriminate.
  assert ("fr" <> "en" /\ "ko" <> "en") as Hen by (split; discriminate).
  exact (proj1 (proj1 (pivot_through_english pivot_world "bonjour" "fr" "ko"
                         empty_state Hs Ht eq_refl) Hen)).
Defined.

(** C5 (counterexample).  French to Korean, the direct model missing, the
    French-English leg answering "hello" and the English-Korean model
    missing as well: the second leg fails, and the router does not raise
    its exhaustion error "All translation strategies failed." but lets the
    leg's own error through, the 404 of the request. *)
Lemma failed_leg_raises_its_own_error :
  leg_answer second_leg_down empty_state [] "Helsinki-NLP/opus-mt-fr-ko"
    (JStr "bonjour") = None /\
  translateWithHuggingFace second_leg_down "bonjour" (JStr "fr") "ko" empty_state
  = (Throw (Error "Request failed with status code 404"),
     after empty_state
       [ leg_post "Helsinki-NLP/opus-mt-fr-ko" (JStr "bonjour");
         leg_post "Helsinki-NLP/opus-mt-fr-en" (JStr "bonjour");
         leg_post "Helsinki-NLP/opus-mt-en-ko" (JStr "hello") ]) /\
  Error "Request failed with status code 404"
  <> Error "All translation strategies failed.".
Proof. split; [|split]; [by vm_compute..|discriminate]. Qed.

(* ===================================================================== *)
(** ** What a computation may add to the trace *)
(* ===================================================================== *)

Section Only.

Variable w : World.
Variable P : Event -> Prop.

Lemma only_ret {A} (a : A) : only P (ret a).
Proof. intros st. exists []. by rewrite app_nil_r. Qed.

Lemma only_throw {A} e : only P (@throw A e).
Proof. intros st. exists []. by rewrite app_nil_r. Qed.

Lemma only_never {A} : only P (@never A).
Proof. intros st. exists []. by rewrite app_nil_r. Qed.

Lemma only_bind {A B} (m : M A) (k : A -> M B) :
  only P m -> (forall a, only P (k a)) -> only P (bind m k).
Proof.
  intros Hm Hk st. unfold bind.
  destruct (Hm st) as (evs1 & H1 & F1).
  destruct (m st) as [[a|e|] st1]; simpl in *; [|by eauto..].
  destruct (Hk a st1) as (evs2 & H2 & F2).
  exists (evs1 ++ evs2). rewrite H2, H1, app_assoc. split; [done|].
  by apply Forall_app.
Qed.

Lemma only_try_catch {A} (m : M A) (h : JsError -> M A) :
  only P m -> (forall e, only P (h e)) -> only P (try_catch m h).
Proof.
  intros Hm Hh st. unfold try_catch.
  destruct (Hm st) as (evs1 & H1 & F1).
  destruct (m st) as [[a|e|] st1]; simpl in *; [by eauto| |by eauto].
  destruct (Hh e st1) as (evs2 & H2 & F2).
  exists (evs1 ++ evs2). rewrite H2, H1, app_assoc. split; [done|].
  by apply Forall_app.
Qed.

Lemma only_one {A} (m : M A) ev :
  (forall st, trace (snd (m st)) = trace st ++ [ev]) -> P ev -> only P m.
Proof. intros Hm Hev st. exists [ev]. split; [apply Hm | by constructor]. Qed.

Lemma only_post_json model body :
  P (EvPost model body) -> only P (post_json w model body).
Proof. by apply only_one. Qed.

Lemma only_post_arraybuffer model body :
  P (EvPost model (BodyJson body)) -> only P (post_arraybuffer w model body).
Proof. by apply only_one. Qed.

Lemma only_client_detect text :
  P (EvGoogleDetect text) -> only P (client_detect w text).
Proof. by apply only_one. Qed.

Lemma only_client_translate text from to :
  P (EvGoogleTranslate text from to) -> only P (client_translate w text from to).
Proof. by apply only_one. Qed.

Lemma only_emit e : P (EvEmit e) -> only P (emit e).
Proof. by apply only_one. Qed.

Lemma only_textToSpeechWithGoogle text lang :
  (forall path, P (EvGttsNew text lang) /\ P (EvGttsSave path) /\
                P (EvReadFile path) /\ P (EvUnlink path)) ->
  only P (textToSpeechWithGoogle w text lang).
Proof.
  intros HP st. rewrite textToSpeechWithGoogle_eq.
  destruct (HP (gtts_path w st text lang)) as (Hn & Hs & Hr & Hu).
  destruct (gtts_new _ _ _ _).
  - exists [EvGttsNew text lang]. split; [done | by repeat constructor].
  - simpl. destruct (gtts_save _ _ _ _ _); simpl; eexists;
      (split; [reflexivity | by repeat constructor]).
Qed.

Lemma only_stt_loop audioBuffer models :
  Forall (fun m => P (stt_post audioBuffer m)) models ->
  only P (stt_loop w audioBuffer models).
Proof.
  induction 1 as [|m models Hm _ IH]; simpl; [apply only_throw|].
  apply only_bind; [by apply only_post_json|].
  intros [data|e]; [|done].
  destruct (truthy data); [|done].
  destruct (as_string _); [apply only_ret | done].
Qed.

Lemma only_tts_fallback_loop text models :
  Forall (fun m => P (tts_post text m)) models ->
  only P (tts_fallback_loop w text models).
Proof.
  induction 1 as [|m models Hm _ IH]; simpl; [apply only_throw|].
  apply only_bind; [by apply only_post_arraybuffer|].
  intros [data|e]; [|done].
  destruct (100 <? _); [apply only_ret | done].
Qed.

Lemma only_textToSpeechWithHuggingFace text targetLang :
  Forall (fun m => P (tts_post text m)) (tts_model targetLang :: fallbackModels) ->
  only P (textToSpeechWithHuggingFace w text targetLang).
Proof.
  intros HP. apply Forall_cons in HP as [H1 Hrest].
  unfold textToSpeechWithHuggingFace. apply only_try_catch.
  - destruct text; try apply only_throw.
    apply only_bind; [by apply only_post_arraybuffer|].
    intros [data|e]; [|apply only_throw].
    destruct (_ <? 100); [apply only_throw | apply only_ret].
  - intros _. by apply only_tts_fallback_loop.
Qed.

Lemma only_synthesize text targetLang :
  (forall path, P (EvGttsNew text targetLang) /\ P (EvGttsSave path) /\
                P (EvReadFile path) /\ P (EvUnlink path)) ->
  Forall (fun m => P (tts_post text m)) (tts_model targetLang :: fallbackModels) ->
  only P (synthesize w text targetLang).
Proof.
  intros Hg Hhf. unfold synthesize, mockTextToSpeech.
  apply only_try_catch; [|intros; apply only_ret].
  apply only_try_catch; [by apply only_textToSpeechWithGoogle|].
  intros _. by apply only_textToSpeechWithHuggingFace.
Qed.

Lemma only_detectLanguageWithHuggingFace text :
  (forall body, P (EvPost detect_model body)) ->
  only P (detectLanguageWithHuggingFace w text).
Proof.
  intros HP. unfold detectLanguageWithHuggingFace.
  apply only_try_catch; [|intros; apply only_throw].
  apply only_bind; [by apply only_post_json|].
  intros [data|e]; [|apply only_throw].
  destruct (truthy data); [|apply only_throw].
  destruct (js_index0 data) as [| | | | |[|top items]|]; try apply only_throw.
  destruct (nullish top); [apply only_throw|].
  destruct (truthy _); [apply only_ret | apply only_throw].
Qed.

Lemma only_detect sourceLang originalText :
  (forall body, P (EvPost detect_model body)) ->
  P (EvGoogleDetect originalText) ->
  only P (detect w sourceLang originalText).
Proof.
  intros HP Hg. unfold detect.
  destruct (String.eqb sourceLang "auto"); [|apply only_ret].
  apply only_try_catch; [|intros; apply only_throw].
  destruct (googleTranslateClient w);
    [|by apply only_detectLanguageWithHuggingFace].
  apply only_bind; [by apply only_client_detect|].
  intros [l|e]; [apply only_ret | apply only_throw].
Qed.

Lemma only_doTranslation inputText model :
  P (leg_post model inputText) -> only P (doTranslation w inputText model).
Proof.
  intros HP st. rewrite doTranslation_eq. exists [leg_post model inputText].
  split; [done | by constructor].
Qed.

Lemma only_translate originalText detected targetLang :
  (forall model body, P (EvPost model body)) ->
  (forall t f, P (EvGoogleTranslate t f targetLang)) ->
  only P (translate w originalText detected targetLang).
Proof.
  intros HP Hg. unfold translate, mockTranslation.
  destruct (strict_eq_str _ _); [apply only_ret|].
  apply only_try_catch; [|intros; apply only_ret].
  unfold translateWithHuggingFace.
  apply only_bind.
  { unfold google_for_japanese. destruct (_ || _); [|apply only_ret].
    destruct (googleTranslateClient w); [|apply only_ret].
    apply only_bind; [by apply only_client_translate|].
    intros [?|?]; apply only_ret. }
  intros [t|]; [apply only_ret|].
  apply only_bind.
  { unfold direct_translation. apply only_try_catch; [|intros; apply only_ret].
    apply only_bind; [apply only_doTranslation, HP|].
    intros v. destruct (truthy v); apply only_ret. }
  intros [t|]; [apply only_ret|].
  unfold pivot_translation. destruct (_ && _); [|apply only_throw].
  apply only_bind; [apply only_doTranslation, HP|].
  intros v. destruct (truthy v); [|apply only_throw].
  apply only_bind; [apply only_doTranslation, HP|].
  intros v'. destruct (truthy v'); [apply only_ret | apply only_throw].
Qed.

End Only.

(* ===================================================================== *)
(** ** Which computations settle, and which always return *)
(* ===================================================================== *)

Section Totality.

Variable w : World.

Lemma yields_ret {A} (Q : A -> Prop) a : Q a -> yields Q (ret a).
Proof. by intros Ha st. Qed.

Lemma yields_throw {A} (Q : A -> Prop) e : yields Q (throw e).
Proof. by intros st. Qed.

Lemma yields_bind {A B} (Q1 : A -> Prop) (Q : B -> Prop) (m : M A) (k : A -> M B) :
  yields Q1 m -> (forall a, Q1 a -> yields Q (k a)) -> yields Q (bind m k).
Proof.
  intros Hm Hk st. unfold bind. specialize (Hm st).
  destruct (m st) as [[a|e|] st1]; simpl in *; [|done..].
  by apply Hk.
Qed.

Lemma yields_try_catch {A} (Q : A -> Prop) (m : M A) (h : JsError -> M A) :
  yields Q m -> (forall e, yields Q (h e)) -> yields Q (try_catch m h).
Proof.
  intros Hm Hh st. unfold try_catch. specialize (Hm st).
  destruct (m st) as [[a|e|] st1]; simpl in *; [done| |done].
  apply Hh.
Qed.

Lemma returns_ret {A} (Q : A -> Prop) a : Q a -> returns Q (ret a).
Proof. intros Ha st. by exists a, st. Qed.

Lemma returns_try_catch {A} (Q : A -> Prop) (m : M A) (h : JsError -> M A) :
  yields Q m -> (forall e, returns Q (h e)) -> returns Q (try_catch m h).
Proof.
  intros Hm Hh st. unfold try_catch. specialize (Hm st).
  destruct (m st) as [[a|e|] st1]; simpl in *; [by eauto| |done].
  apply Hh.
Qed.

Lemma yields_post_json model body :
  yields (fun _ => True) (post_json w model body).
Proof. by intros st. Qed.

Lemma yields_post_arraybuffer model body :
  yields (fun _ => True) (post_arraybuffer w model body).
Proof. by intros st. Qed.

Lemma yields_stt_loop audioBuffer models :
  yields (fun _ => True) (stt_loop w audioBuffer models).
Proof.
  induction models as [|m models IH]; simpl; [apply yields_throw|].
  eapply yields_bind; [apply yields_post_json|].
  intros [data|e] _; [|done].
  destruct (truthy data); [|done].
  destruct (as_string _); [by apply yields_ret | done].
Qed.

Lemma yields_tts_fallback_loop text models :
  yields (fun _ => True) (tts_fallback_loop w text models).
Proof.
  induction models as [|m models IH]; simpl; [apply yields_throw|].
  eapply yields_bind; [apply yields_post_arraybuffer|].
  intros [data|e] _; [|done].
  destruct (100 <? _); [by apply yields_ret | done].
Qed.

Lemma yields_textToSpeechWithHuggingFace text targetLang :
  yields (fun _ => True) (textToSpeechWithHuggingFace w text targetLang).
Proof.
  unfold textToSpeechWithHuggingFace.
  apply yields_try_catch; [|intros; apply yields_tts_fallback_loop].
  destruct text; try apply yields_throw.
  eapply yields_bind; [apply yields_post_arraybuffer|].
  intros [data|e] _; [|apply yields_throw].
  destruct (_ <? 100); [apply yields_throw | by apply yields_ret].
Qed.

(** Synthesis returns audio, unless the gTTS call hangs: the stage is
    then pending for good. *)
Lemma synthesize_cases text targetLang st :
  (~ gtts_hangs w text targetLang st /\
   exists a st', synthesize w text targetLang st = (Return a, st'))
  \/
  (gtts_hangs w text targetLang st /\
   exists st', synthesize w text targetLang st = (Pending, st')).
Proof.
  rewrite synthesize_eq.
  pose proof (textToSpeechWithGoogle_pending w text targetLang st) as Hp.
  destruct (textToSpeechWithGoogle w text targetLang st) as [[a|e|] stG];
    simpl in Hp.
  - left. split; [by intros H%Hp|]. by eauto.
  - left. split; [by intros H%Hp|].
    pose proof (yields_textToSpeechWithHuggingFace text targetLang stG) as Hy.
    destruct (textToSpeechWithHuggingFace w text targetLang stG) as [[a|e'|] stH];
      simpl in Hy; [by eauto|by eauto|done].
  - right. split; [by apply Hp|by eauto].
Qed.

Lemma synthesize_returns text targetLang st :
  ~ gtts_hangs w text targetLang st ->
  exists a st', synthesize w text targetLang st = (Return a, st').
Proof.
  intros Hanswers.
  by destruct (synthesize_cases text targetLang st) as [[_ Hret]|[Hhangs _]].
Qed.

Lemma yields_doTranslation inputText model :
  yields not_nullish (doTranslation w inputText model).
Proof.
  intros st. rewrite doTranslation_eq. simpl.
  pose proof (translation_of_settles
    (axios_post_json w (trace st) model (translation_payload inputText))).
  pose proof (translation_of_not_nullish
    (axios_post_json w (trace st) model (translation_payload inputText))) as Hnn.
  destruct (translation_of _); [by apply Hnn|done|done].
Qed.

Lemma yields_translateWithHuggingFace text source targetLang :
  yields not_nullish (translateWithHuggingFace w text source targetLang).
Proof.
  unfold translateWithHuggingFace.
  eapply (yields_bind (fun _ => True)).
  { unfold google_for_japanese. destruct (_ || _); [|by apply yields_ret].
    destruct (googleTranslateClient w); [|by apply yields_ret].
    eapply (yields_bind (fun _ => True)); [by intros st|].
    intros [?|?] _; by apply yields_ret. }
  intros [t|] _; [by apply yields_ret|].
  eapply (yields_bind (fun d => forall v, d = Some v -> not_nullish v)).
  { unfold direct_translation.
    apply yields_try_catch; [|intros; by apply yields_ret].
    eapply yields_bind; [apply yields_doTranslation|].
    intros v Hv. destruct (truthy v); apply yields_ret; [|done].
    by intros ? [= <-]. }
  intros [t|] Ht; [apply yields_ret; by apply Ht|].
  unfold pivot_translation. destruct (_ && _); [|apply yields_throw].
  eapply yields_bind; [apply yields_doTranslation|].
  intros v _. destruct (truthy v); [|apply yields_throw].
  eapply yields_bind; [apply yields_doTranslation|].
  intros v' Hv'. destruct (truthy v'); [by apply yields_ret | apply yields_throw].
Qed.

(** The translation stage always returns a text that is neither [null]
    nor [undefined]. *)
Lemma translate_returns originalText detected targetLang :
  returns not_nullish (translate w originalText detected targetLang).
Proof.
  unfold translate, mockTranslation.
  destruct (strict_eq_str _ _); [by apply returns_ret|].
  apply returns_try_catch; [apply yields_translateWithHuggingFace|].
  intros _. by apply returns_ret.
Qed.

(** The transcription stage, case by case: the first accepted transcript
    (announced on the socket), or the mock transcript (not announced). *)
Lemma transcribe_cases audioBuffer socket st :
  (exists pre model post text,
      stt_models = pre ++ model :: post /\
      stt_all_fail w audioBuffer st pre /\
      stt_answer w audioBuffer st pre model = Some text /\
      transcribe w audioBuffer socket st
      = (Return text,
         after st (map (stt_post audioBuffer) (pre ++ [model])
                   ++ (if socket then [EvEmit (TranscriptionUpdate text)] else []))))
  \/
  (stt_all_fail w audioBuffer st stt_models /\
   transcribe w audioBuffer socket st
   = (Return mock_transcript, after st (map (stt_post audioBuffer) stt_models))).
Proof.
  unfold transcribe, speechToTextWithHuggingFace, try_catch, bind.
  destruct (stt_loop_cases w audioBuffer stt_models st)
    as [(pre & model & post & text & Heq & Hfail & Hok)|Hfail].
  - left. exists pre, model, post, text. repeat split; try done.
    rewrite Heq, (stt_loop_first_success _ _ _ _ _ _ _ Hfail Hok).
    destruct socket; simpl.
    + unfold emit, log. simpl. by rewrite <- app_assoc.
    + unfold ret. by rewrite app_nil_r.
  - right. split; [done|]. by rewrite (stt_loop_exhausted _ _ _ _ Hfail).
Qed.

End Totality.

(* ===================================================================== *)
(** ** The pipeline as a whole *)
(* ===================================================================== *)

Lemma pipeline_stages (w : World) audioData sourceLang targetLang socket
    st t st1 l st2 tr st3 a st4 :
  1000 <= Z.of_nat (length (to_audioBuffer audioData)) ->
  transcribe w (to_audioBuffer audioData) socket st = (Return t, st1) ->
  detect w sourceLang t st1 = (Return l, st2) ->
  translate w t l targetLang st2 = (Return tr, st3) ->
  synthesize w tr targetLang st3 = (Return a, st4) ->
  processAudioPipeline w audioData sourceLang targetLang socket st
  = (Return (mkResult a tr t), st4).
Proof.
  intros Hlen H1 H2 H3 H4. unfold processAudioPipeline, try_catch, bind.
  destruct (Z.ltb_spec (Z.of_nat (length (to_audioBuffer audioData))) 1000); [lia|].
  by rewrite H1, H2, H3, H4.
Qed.

Lemma transcribe_returns (w : World) audioBuffer socket st :
  exists t st1,
    transcribe w audioBuffer socket st = (Return t, st1) /\
    (stt_all_fail w audioBuffer st stt_models -> t = mock_transcript).
Proof.
  destruct (transcribe_cases w audioBuffer socket st)
    as [(pre & model & post & text & Heq & Hfail & Hok & Hrun)|[Hfail Hrun]].
  - exists text. eexists. split; [exact Hrun|].
    intros Hall. specialize (Hall (length pre) model).
    rewrite Heq, take_app_length in Hall.
    rewrite Hall in Hok; [done|]. by rewrite list_lookup_middle.
  - by eauto.
Qed.

Lemma pipeline_stages_pending (w : World) audioData sourceLang targetLang socket
    st t st1 l st2 tr st3 st4 :
  1000 <= Z.of_nat (length (to_audioBuffer audioData)) ->
  transcribe w (to_audioBuffer audioData) socket st = (Return t, st1) ->
  detect w sourceLang t st1 = (Return l, st2) ->
  translate w t l targetLang st2 = (Return tr, st3) ->
  synthesize w tr targetLang st3 = (Pending, st4) ->
  processAudioPipeline w audioData sourceLang targetLang socket st
  = (Pending, st4).
Proof.
  intros Hlen H1 H2 H3 H4. unfold processAudioPipeline, try_catch, bind.
  destruct (Z.ltb_spec (Z.of_nat (length (to_audioBuffer audioData))) 1000); [lia|].
  by rewrite H1, H2, H3, H4.
Qed.

(** As long as gTTS answers (with audio or with an error), the pipeline
    returns a result for audio of at least 1000 bytes and a source
    language that is not 'auto' or whose detection returns, whatever the
    providers answer: transcription, translation and synthesis each
    return, and the result is made of what they returned.  [originalText]
    is a string and [audio] a buffer; [text] is neither [null] nor
    [undefined].  Exhaustion is never propagated: when every
    speech-to-text model fails [originalText] is the mock transcript, when
    the translation router throws [text] is the mock translation of
    [originalText], and when gTTS and Hugging Face synthesis both throw
    [audio] is the mock audio. *)
Lemma pipeline_returns_when_gtts_answers
    (w : World) (audioData : AudioData) (sourceLang targetLang : string)
    (socket : bool) (st : State) :
  let audioBuffer := to_audioBuffer audioData in
  1000 <= Z.of_nat (length audioBuffer) ->
  (sourceLang = "auto" ->
   forall t st1,
     transcribe w audioBuffer socket st = (Return t, st1) ->
     exists l st2, detect w sourceLang t st1 = (Return l, st2)) ->
  (forall tr st3, ~ gtts_hangs w tr targetLang st3) ->
  exists t l tr a st1 st2 st3 st4,
    transcribe w audioBuffer socket st = (Return t, st1) /\
    detect w sourceLang t st1 = (Return l, st2) /\
    translate w t l targetLang st2 = (Return tr, st3) /\
    synthesize w tr targetLang st3 = (Return a, st4) /\
    processAudioPipeline w audioData sourceLang targetLang socket st
    = (Return (mkResult a tr t), st4) /\
    nullish tr = false /\
    (stt_all_fail w audioBuffer st stt_models -> t = mock_transcript) /\
    (strict_eq_str l targetLang = false ->
     (exists e s, translateWithHuggingFace w t l targetLang st2 = (Throw e, s)) ->
     tr = JStr ("[Translated to " +:+ targetLang +:+ "] " +:+ t)) /\
    ((exists e s,
        try_catch (textToSpeechWithGoogle w tr targetLang)
          (fun _ => textToSpeechWithHuggingFace w tr targetLang) st3
        = (Throw e, s)) ->
     a = mock_audio).
Proof.
  intros audioBuffer Hlen Hdetect Hanswers.
  destruct (transcribe_returns w audioBuffer socket st) as (t & st1 & H1 & Hmock1).
  assert (exists l st2, detect w sourceLang t st1 = (Return l, st2))
    as (l & st2 & H2).
  { destruct (String.eqb_spec sourceLang "auto") as [Hauto|Hauto].
    - by apply Hdetect.
    - exists (JStr sourceLang), st1. unfold detect.
      apply String.eqb_neq in Hauto. by rewrite Hauto. }
  destruct (translate_returns w t l targetLang st2) as (tr & st3 & H3 & Hnn).
  destruct (synthesize_returns w tr targetLang st3 (Hanswers tr st3))
    as (a & st4 & H4).
  exists t, l, tr, a, st1, st2, st3, st4.
  repeat (split; [done|]).
  split; [by apply (pipeline_stages w _ _ _ _ st t st1 l st2 tr st3 a st4)|].
  repeat (split; [done|]).
  split.
  - intros Hne (e & s & Hthrow). revert H3.
    unfold translate, try_catch, mockTranslation, ret.
    rewrite Hne, Hthrow. by intros [= <- _].
  - intros (e & s & Hthrow). revert H4.
    unfold synthesize, mockTextToSpeech, ret.
    unfold try_catch at 1. rewrite Hthrow. by intros [= <- _].
Qed.

(** C1 (the code misses the provider that never answers).  A job with
    audio of at least 1000 bytes, whose transcription, detection and
    translation stages have returned, does not return a result when the
    gTTS call of the synthesis stage hangs: [speech.save] never calls
    back, nothing ever settles the promise of [textToSpeechWithGoogle]
    (it has no timeout, unlike every HTTP request of the pipeline), no
    fallback is tried and no mock substituted; synthesis, and with it the
    whole pipeline, stays pending. *)
Theorem pipeline_pending_when_gtts_hangs
    (w : World) (audioData : AudioData) (sourceLang targetLang : string)
    (socket : bool) (st : State) (t : string) (st1 : State) (l : JsVal)
    (st2 : State) (tr : JsVal) (st3 : State) :
  1000 <= Z.of_nat (length (to_audioBuffer audioData)) ->
  transcribe w (to_audioBuffer audioData) socket st = (Return t, st1) ->
  detect w sourceLang t st1 = (Return l, st2) ->
  translate w t l targetLang st2 = (Return tr, st3) ->
  gtts_hangs w tr targetLang st3 ->
  exists st4,
    synthesize w tr targetLang st3 = (Pending, st4) /\
    processAudioPipeline w audioData sourceLang targetLang socket st
    = (Pending, st4) /\
    Forall (fun ev => is_post ev = false) (drop (length (trace st3)) (trace st4)).
Proof.
  intros Hlen H1 H2 H3 Hhangs.
  pose proof (proj2 (textToSpeechWithGoogle_pending w tr targetLang st3) Hhangs)
    as Hpending.
  pose proof (textToSpeechWithGoogle_events w tr targetLang st3)
    as (gevs & Hgevs & Hposts).
  pose proof (synthesize_eq w tr targetLang st3) as H4.
  destruct (textToSpeechWithGoogle w tr targetLang st3) as [[a|e|] st4];
    simpl in Hpending, Hgevs; [done|done|].
  exists st4. split; [done|]. split.
  - by apply (pipeline_stages_pending w _ _ _ _ st t st1 l st2 tr st3 st4).
  - rewrite Hgevs, drop_app_length. by apply Forall_cons.
Qed.

(** English to Spanish, a kilobyte of audio, every HTTP provider down and
    gTTS never calling back: the three mocks are never returned. *)
Lemma pipeline_pending_witness :
  exists st4,
    processAudioPipeline gtts_silent (AudioBuffer silence_1000) "en" "es" true
      empty_state
    = (Pending, st4).
Proof.
  destruct (pipeline_pending_when_gtts_hangs gtts_silent (AudioBuffer silence_1000)
              "en" "es" true empty_state mock_transcript
              (after empty_state (map (stt_post silence_1000) stt_models))
              (JStr "en")
              (after empty_state (map (stt_post silence_1000) stt_models))
              (JStr ("[Translated to es] " +:+ mock_transcript))
              (after empty_state
                 (map (stt_post silence_1000) stt_models
                  ++ [leg_post "Helsinki-NLP/opus-mt-en-es" (JStr mock_transcript)])))
    as (st4 & _ & Hrun & _).
  - vm_compute. discriminate.
  - vm_compute. reflexivity.
  - vm_compute. reflexivity.
  - vm_compute. reflexivity.
  - split; [vm_compute; reflexivity|]. exists None. vm_compute. reflexivity.
  - exists st4. exact Hrun.
Defined.

(** The same job at the socket: the handler never answers, the client gets
    neither [translated-audio] nor [error]. *)
Lemma handler_silent_when_gtts_hangs :
  let run := on_audio_stream gtts_silent (Some english_to_spanish) empty_state in
  fst run = Pending /\ emitted (trace (snd run)) = [].
Proof. split; vm_compute; reflexivity. Qed.

(** The same run, evaluated. *)
Lemma pipeline_all_down_returns_mocks :
  fst (processAudioPipeline all_down (AudioBuffer silence_1000) "en" "es" true
         empty_state)
  = Return (mkResult mock_audio
              (JStr "[Translated to es] This is a test translation from the mock service")
              mock_transcript).
Proof. vm_compute. reflexivity. Qed.

Lemma tts_model_values targetLang : tts_model targetLang ∈ synthesis_models.
Proof.
  unfold tts_model, synthesis_models.
  destruct (modelMap !! targetLang) as [m|] eqn:Hm.
  - apply elem_of_app. left. apply list_elem_of_fmap.
    exists (targetLang, m). split; [done|]. by apply elem_of_map_to_list.
  - destruct (inherited targetLang) as [value|] eqn:Hi.
    + apply elem_of_app. right. apply elem_of_app. left.
      apply list_elem_of_fmap. exists (targetLang, value). split; [done|].
      by apply elem_of_list_to_map_2.
    + apply (bool_decide_unpack _). by vm_compute.
Qed.

Lemma synthesis_models_not_translation text :
  Forall (fun m => not_translation_call (tts_post text m)) synthesis_models.
Proof.
  unfold not_translation_call, tts_post. simpl.
  apply (bool_decide_unpack _). by vm_compute.
Qed.

Lemma tts_posts_not_translation text targetLang :
  Forall (fun m => not_translation_call (tts_post text m))
         (tts_model targetLang :: fallbackModels).
Proof.
  apply Forall_cons. split; [|by repeat constructor].
  pose proof (synthesis_models_not_translation text) as Hall.
  rewrite Forall_forall in Hall. apply Hall, tts_model_values.
Qed.

Lemma only_transcribe (w : World) (P : Event -> Prop) audioBuffer socket :
  (forall e, P (EvEmit e)) ->
  Forall (fun m => P (stt_post audioBuffer m)) stt_models ->
  only P (transcribe w audioBuffer socket).
Proof.
  intros He Hp. unfold transcribe, mockSpeechToText.
  apply only_try_catch; [|intros; apply only_ret].
  apply only_bind; [by apply only_stt_loop|].
  intros t. apply only_bind; [|intros; apply only_ret].
  destruct socket; [by apply only_emit | apply only_ret].
Qed.

(** C3. When the language the detection stage returns (the declared
    source language, or the detected one for 'auto') is strictly equal to
    the target language, the translation stage returns [originalText]
    itself without touching the state, the pipeline returns a result whose
    [text] is exactly [originalText], and no event of the whole run is a
    call to a translation provider (neither the Google client nor a
    Helsinki-NLP model).  The one run that returns no result is the one in
    which the gTTS call of the synthesis stage hangs; it calls no
    translation provider either. *)
Theorem same_language_skips_translation
    (w : World) (audioData : AudioData) (sourceLang targetLang : string)
    (socket : bool) (st : State) (t : string) (st1 : State) (l : JsVal)
    (st2 : State) :
  1000 <= Z.of_nat (length (to_audioBuffer audioData)) ->
  transcribe w (to_audioBuffer audioData) socket st = (Return t, st1) ->
  detect w sourceLang t st1 = (Return l, st2) ->
  strict_eq_str l targetLang = true ->
  translate w t l targetLang st2 = (Return (JStr t), st2) /\
  exists st' evs,
    trace st' = trace st ++ evs /\
    Forall not_translation_call evs /\
    ((~ gtts_hangs w (JStr t) targetLang st2 /\
      exists a,
        processAudioPipeline w audioData sourceLang targetLang socket st
        = (Return (mkResult a (JStr t) t), st'))
     \/
     (gtts_hangs w (JStr t) targetLang st2 /\
      processAudioPipeline w audioData sourceLang targetLang socket st
      = (Pending, st'))).
Proof.
  intros Hlen H1 H2 Hsame.
  assert (translate w t l targetLang st2 = (Return (JStr t), st2)) as H3.
  { unfold translate. by rewrite Hsame. }
  split; [done|].
  destruct (only_transcribe w not_translation_call (to_audioBuffer audioData) socket
              ltac:(done) ltac:(by repeat constructor) st) as (evs1 & E1 & F1).
  destruct (only_detect w not_translation_call sourceLang t
              ltac:(done) ltac:(done) st1) as (evs2 & E2 & F2).
  destruct (only_synthesize w not_translation_call (JStr t) targetLang
              ltac:(done) (tts_posts_not_translation _ _) st2) as (evs4 & E4 & F4).
  rewrite H1 in E1. rewrite H2 in E2. simpl in E1, E2.
  assert (trace (snd (synthesize w (JStr t) targetLang st2))
          = trace st ++ evs1 ++ evs2 ++ evs4) as Htrace
    by by rewrite E4, E2, E1, !app_assoc.
  assert (Forall not_translation_call (evs1 ++ evs2 ++ evs4)) as Hall
    by (rewrite !Forall_app; done).
  destruct (synthesize_cases w (JStr t) targetLang st2)
    as [[Hanswers (a & st' & H4)]|[Hhangs (st' & H4)]];
    rewrite H4 in Htrace; simpl in Htrace;
    exists st', (evs1 ++ evs2 ++ evs4); (split; [done|]); (split; [done|]).
  - left. split; [done|]. exists a.
    by apply (pipeline_stages w _ _ _ _ st t st1 l st2 (JStr t) st2 a st').
  - right. split; [done|].
    by apply (pipeline_stages_pending w _ _ _ _ st t st1 l st2 (JStr t) st2 st').
Qed.

(** Spanish to Spanish with every provider down. *)
Lemma same_language_witness :
  translate all_down mock_transcript (JStr "es") "es"
    (after empty_state (map (stt_post silence_1000) stt_models))
  = (Return (JStr mock_transcript),
     after empty_state (map (stt_post silence_1000) stt_models)) /\
  exists st' evs,
    trace st' = trace empty_state ++ evs /\
    Forall not_translation_call evs /\
    ((~ gtts_hangs all_down (JStr mock_transcript) "es"
          (after empty_state (map (stt_post silence_1000) stt_models)) /\
      exists a,
        processAudioPipeline all_down (AudioBuffer silence_1000) "es" "es" true
          empty_state
        = (Return (mkResult a (JStr mock_transcript) mock_transcript), st'))
     \/
     (gtts_hangs all_down (JStr mock_transcript) "es"
        (after empty_state (map (stt_post silence_1000) stt_models)) /\
      processAudioPipeline all_down (AudioBuffer silence_1000) "es" "es" true
        empty_state
      = (Pending, st'))).
Proof.
  apply (same_language_skips_translation all_down (AudioBuffer silence_1000)
           "es" "es" true empty_state mock_transcript
           (after empty_state (map (stt_post silence_1000) stt_models))
           (JStr "es")
           (after empty_state (map (stt_post silence_1000) stt_models))).
  - vm_compute. discriminate.
  - vm_compute. reflexivity.
  - vm_compute. reflexivity.
  - reflexivity.
Defined.

Lemma emitted_not_emit evs : Forall not_emit evs -> emitted evs = [].
Proof.
  induction 1 as [|ev evs Hev _ IH]; [done|].
  change (ev :: evs) with ([ev] ++ evs).
  rewrite emitted_app, IH. by destruct ev.
Qed.

Lemma emitted_stt_posts audioBuffer models :
  emitted (map (stt_post audioBuffer) models) = [].
Proof. apply emitted_not_emit, Forall_map. by apply Forall_true. Qed.

(** What the pipeline does with a large enough audio buffer, stage by
    stage. *)
Lemma pipeline_run (w : World) audioData sourceLang targetLang socket st t st1 :
  1000 <= Z.of_nat (length (to_audioBuffer audioData)) ->
  transcribe w (to_audioBuffer audioData) socket st = (Return t, st1) ->
  match detect w sourceLang t st1 with
  | (Return l, st2) =>
      exists tr st3 st4,
        translate w t l targetLang st2 = (Return tr, st3) /\
        ((~ gtts_hangs w tr targetLang st3 /\
          exists a,
            synthesize w tr targetLang st3 = (Return a, st4) /\
            processAudioPipeline w audioData sourceLang targetLang socket st
            = (Return (mkResult a tr t), st4))
         \/
         (gtts_hangs w tr targetLang st3 /\
          synthesize w tr targetLang st3 = (Pending, st4) /\
          processAudioPipeline w audioData sourceLang targetLang socket st
          = (Pending, st4)))
  | (Throw e, st2) =>
      processAudioPipeline w audioData sourceLang targetLang socket st
      = (Throw e, st2)
  | (Pending, st2) =>
      processAudioPipeline w audioData sourceLang targetLang socket st
      = (Pending, st2)
  end.
Proof.
  intros Hlen H1.
  destruct (detect w sourceLang t st1) as [[l|e|] st2] eqn:H2.
  - destruct (translate_returns w t l targetLang st2) as (tr & st3 & H3 & _).
    destruct (synthesize_cases w tr targetLang st3)
      as [[Hanswers (a & st4 & H4)]|[Hhangs (st4 & H4)]];
      exists tr, st3, st4; (split; [done|]).
    + left. split; [done|]. exists a. split; [done|].
      by apply (pipeline_stages w _ _ _ _ st t st1 l st2 tr st3 a st4).
    + right. repeat (split; [done|]).
      by apply (pipeline_stages_pending w _ _ _ _ st t st1 l st2 tr st3 st4).
  - unfold processAudioPipeline, try_catch, bind.
    destruct (Z.ltb_spec (Z.of_nat (length (to_audioBuffer audioData))) 1000); [lia|].
    by rewrite H1, H2.
  - unfold processAudioPipeline, try_catch, bind.
    destruct (Z.ltb_spec (Z.of_nat (length (to_audioBuffer audioData))) 1000); [lia|].
    by rewrite H1, H2.
Qed.

Lemma transcribe_emits (w : World) audioBuffer st :
  exists t evs1,
    transcribe w audioBuffer true st = (Return t, after st evs1) /\
    ((fst (speechToTextWithHuggingFace w audioBuffer st) = Return t /\
      emitted evs1 = [TranscriptionUpdate t]) \/
     (stt_all_fail w audioBuffer st stt_models /\ emitted evs1 = [])).
Proof.
  destruct (transcribe_cases w audioBuffer true st)
    as [(pre & model & post & o & Heq & Hfail & Hok & Hrun)|[Hfail Hrun]].
  - eexists _, _. split; [exact Hrun|]. left. split.
    + unfold speechToTextWithHuggingFace.
      by rewrite Heq, (stt_loop_first_success _ _ _ _ _ _ _ Hfail Hok).
    + by rewrite emitted_app, emitted_stt_posts.
  - eexists _, _. split; [exact Hrun|]. right. split; [done|].
    apply emitted_stt_posts.
Qed.

(** C6 (as the code has it). Whenever a handled [audio-stream] event ends
    with a [translated-audio] event, the socket events of that job are
    either [transcription-update] carrying the transcript a speech-to-text
    model returned, followed by [translated-audio] and nothing else, or,
    when every speech-to-text model failed and the mock transcript was
    substituted, the [translated-audio] event alone. *)
Theorem transcription_update_precedes_translated_audio
    (w : World) (payload : option AudioStream) (st : State) :
  exists evs,
    trace (snd (on_audio_stream w payload st)) = trace st ++ evs /\
    forall a tr,
      TranslatedAudio a tr ∈ emitted evs ->
      exists data audioData,
        payload = Some data /\
        stream_audio data = Some audioData /\
        ((exists o,
            fst (speechToTextWithHuggingFace w (to_audioBuffer audioData) st)
            = Return o /\
            emitted evs = [TranscriptionUpdate o; TranslatedAudio a tr]) \/
         (stt_all_fail w (to_audioBuffer audioData) st stt_models /\
          emitted evs = [TranslatedAudio a tr])).
Proof.
  destruct payload as [data|];
    [|exists []; split; [by rewrite app_nil_r|];
      intros a tr Hin; by apply elem_of_nil in Hin].
  unfold on_audio_stream.
  destruct (audio_missing (stream_audio data)) eqn:Hmiss.
  { eexists. split; [reflexivity|]. intros a tr Hin.
    apply list_elem_of_singleton in Hin. discriminate. }
  destruct (stream_audio data) as [audioData|] eqn:Haudio; [|done].
  set (sourceLang := default "auto" (stream_sourceLang data)).
  set (targetLang := default "es" (stream_targetLang data)).
  set (audioBuffer := to_audioBuffer audioData).
  destruct (Z.ltb_spec (Z.of_nat (length audioBuffer)) 1000) as [Hsmall|Hlen].
  { unfold try_catch, bind.
    rewrite (pipeline_size_check w audioData sourceLang targetLang true st)
      by by apply Z.ltb_lt.
    eexists. split; [reflexivity|]. intros a tr Hin.
    apply list_elem_of_singleton in Hin. discriminate. }
  destruct (transcribe_emits w audioBuffer st) as (t & evs1 & Hrun & Hhead).
  pose proof (pipeline_run w audioData sourceLang targetLang true st _ _ Hlen Hrun)
    as Hp.
  destruct (only_detect w not_emit sourceLang t ltac:(done) ltac:(done)
              (after st evs1)) as (evs2 & E2 & F2).
  apply emitted_not_emit in F2.
  unfold try_catch, bind.
  destruct (detect w sourceLang t (after st evs1)) as [[l|e|] st2].
  - destruct Hp as (tr & st3 & st4 & H3 & Hp).
    destruct (only_translate w not_emit t l targetLang ltac:(done) ltac:(done) st2)
      as (evs3 & E3 & F3).
    destruct (only_synthesize w not_emit tr targetLang ltac:(done)
                ltac:(by repeat constructor) st3) as (evs4 & E4 & F4).
    apply emitted_not_emit in F3, F4.
    rewrite H3 in E3.
    destruct Hp as [[_ (a & H4 & ->)]|[_ [H4 ->]]]; rewrite H4 in E4; simpl in *.
    + exists (evs1 ++ evs2 ++ evs3 ++ evs4 ++ [EvEmit (TranslatedAudio a tr)]).
      split; [by rewrite E4, E3, E2, !app_assoc|].
      rewrite !emitted_app, F2, F3, F4. simpl.
      intros a' tr' Hin. exists data, audioData. do 2 (split; [done|]).
      destruct Hhead as [[Hstt Hev]|[Hall Hev]]; rewrite Hev in Hin |- *.
      * left. exists t. split; [done|].
        apply elem_of_cons in Hin as [Hin|Hin]; [discriminate|].
        apply list_elem_of_singleton in Hin. by injection Hin as -> ->.
      * right. split; [done|].
        apply list_elem_of_singleton in Hin. by injection Hin as -> ->.
    + exists (evs1 ++ evs2 ++ evs3 ++ evs4).
      split; [by rewrite E4, E3, E2, !app_assoc|].
      rewrite !emitted_app, F2, F3, F4, !app_nil_r.
      intros a' tr' Hin. exfalso.
      destruct Hhead as [[_ Hev]|[_ Hev]]; rewrite Hev in Hin;
        repeat (apply elem_of_cons in Hin as [Hin|Hin]; [discriminate|]);
        by apply elem_of_nil in Hin.
  - rewrite Hp. simpl in *.
    exists (evs1 ++ evs2 ++ [EvEmit (ErrorEvent ("Pipeline failed: " +:+ message e))]).
    split; [by rewrite E2, !app_assoc|].
    rewrite !emitted_app, F2. simpl. intros a' tr' Hin. exfalso.
    destruct Hhead as [[_ Hev]|[_ Hev]]; rewrite Hev in Hin;
      repeat (apply elem_of_cons in Hin as [Hin|Hin]; [discriminate|]);
      by apply elem_of_nil in Hin.
  - rewrite Hp. simpl in *.
    exists (evs1 ++ evs2). split; [by rewrite E2, !app_assoc|].
    rewrite !emitted_app, F2. intros a' tr' Hin. exfalso.
    destruct Hhead as [[_ Hev]|[_ Hev]]; rewrite Hev in Hin;
      repeat (apply elem_of_cons in Hin as [Hin|Hin]; [discriminate|]);
      by apply elem_of_nil in Hin.
Qed.

(** C6 (counterexample). English to Spanish, a kilobyte of audio, every
    provider down: the job ends with [translated-audio] (carrying the mock
    audio and the mock translation) and no [transcription-update] was
    emitted at all. *)
Lemma translated_audio_without_transcription_update :
  let evs :=
    emitted (trace (snd (on_audio_stream all_down (Some english_to_spanish) empty_state))) in
  evs = [ TranslatedAudio mock_audio
            (JStr "[Translated to es] This is a test translation from the mock service") ]
  /\ forall o, TranscriptionUpdate o ∉ evs.
Proof.
  assert (emitted (trace (snd (on_audio_stream all_down (Some english_to_spanish) empty_state)))
          = [ TranslatedAudio mock_audio
                (JStr "[Translated to es] This is a test translation from the mock service") ])
    as Hev by (vm_compute; reflexivity).
  cbv zeta. rewrite Hev. split; [done|].
  intros o Hin. apply list_elem_of_singleton in Hin. discriminate.
Qed.

(* ===================================================================== *)
(** ** The synthesis stage *)
(* ===================================================================== *)



(* ===================================================================== *)
(** ** Whole jobs, evaluated *)
(* ===================================================================== *)

(** Every provider answers: the transcript is announced, then the result
    is sent, four requests were made in all, and the temporary file is gone
    afterwards. *)
Example job_with_all_providers_up :
  let st' := snd (on_audio_stream all_up (Some english_to_spanish) empty_state) in
  emitted (trace st') = [ TranscriptionUpdate "hello"; TranslatedAudio mp3_200 (JStr "hola") ]
  /\ trace st'
     = [ stt_post silence_1000 "openai/whisper-base";
         EvEmit (TranscriptionUpdate "hello");
         leg_post "Helsinki-NLP/opus-mt-en-es" (JStr "hello");
         EvGttsNew (JStr "hola") "es";
         EvGttsSave "/tmp/tts-1700000000000.mp3";
         EvReadFile "/tmp/tts-1700000000000.mp3";
         EvUnlink "/tmp/tts-1700000000000.mp3";
         EvEmit (TranslatedAudio mp3_200 (JStr "hola")) ]
  /\ fs st' = ∅.
Proof. repeat split; vm_compute; reflexivity. Qed.

(** 500 bytes of audio: the job ends with one [error] event and no
    provider was asked. *)
Example job_with_short_audio :
  trace (snd (on_audio_stream all_up (Some too_short) empty_state))
  = [ EvEmit (ErrorEvent "Pipeline failed: Audio buffer too small - may be empty") ].
Proof. vm_compute. reflexivity. Qed.

(* ===================================================================== *)
(** ** Language detection, beyond the claims *)
(* ===================================================================== *)

(** X1. [detectLanguageWithHuggingFace] sends exactly one request, to the
    detection model.  It returns only a truthy label, the [label] of the
    first entry of the first array of the reply; every failure (HTTP error,
    malformed body, missing or empty label) is thrown as an error whose
    message starts with "Hugging Face language detection failed: ". *)
Theorem hf_detection_contract (w : World) (text : string) (st : State) :
  exists o,
    detectLanguageWithHuggingFace w text st = (o, after st [detect_request text]) /\
    match o with
    | Return label =>
        truthy label = true /\
        exists data top rest,
          axios_post_json w (trace st) detect_model
            (BodyJson (JObj [("inputs", JStr text)])) = Ok data /\
          js_index0 data = JArr (top :: rest) /\
          js_prop top "label" = label
    | Throw e =>
        exists cause,
          e = Error ("Hugging Face language detection failed: " +:+ cause)
    | Pending => False
    end.
Proof.
  unfold detectLanguageWithHuggingFace, try_catch, bind, post_json.
  fold (detect_request text). fold (after st [detect_request text]).
  destruct (axios_post_json _ _ _ _) as [data|e] eqn:Hreply.
  2: { eexists. split; [reflexivity|]. by eexists. }
  destruct (truthy data).
  2: { eexists. split; [reflexivity|]. by eexists. }
  destruct (js_index0 data) as [| | | | |[|top items]|] eqn:Hidx;
    try (eexists; split; [reflexivity|]; by eexists).
  destruct (nullish top); [eexists; split; [reflexivity|]; by eexists|].
  destruct (truthy (js_prop top "label")) eqn:Hlabel;
    [|eexists; split; [reflexivity|]; by eexists].
  eexists. split; [reflexivity|]. split; [done|].
  exists data, top, items. by repeat split.
Qed.

Lemma detectLanguageWithHuggingFace_settles (w : World) text st :
  exists o,
    detectLanguageWithHuggingFace w text st = (o, after st [detect_request text]) /\
    o <> Pending.
Proof.
  unfold detectLanguageWithHuggingFace, try_catch, bind, post_json.
  fold (detect_request text). fold (after st [detect_request text]).
  destruct (axios_post_json _ _ _ _) as [data|e]; [|by eexists].
  destruct (truthy data); [|by eexists].
  destruct (js_index0 data) as [| | | | |[|top items]|]; try by eexists.
  destruct (nullish top); [by eexists|].
  destruct (truthy (js_prop top "label")); by eexists.
Qed.

Lemma detect_throws_detection_failed (w : World) sourceLang t st e st' :
  detect w sourceLang t st = (Throw e, st') ->
  exists cause, e = Error (detection_failed_message cause).
Proof.
  unfold detect. destruct (String.eqb sourceLang "auto"); [|done].
  unfold try_catch.
  destruct (googleTranslateClient w).
  - unfold bind, client_detect.
    destruct (google_detect w (trace st) t) as [l|e0]; [done|].
    intros [= <- _]. by eexists.
  - destruct (detectLanguageWithHuggingFace w t st) as [[l|e0|] s]; [done| |done].
    intros [= <- _]. by eexists.
Qed.

(** X2. The detection stage asks at most one provider, once: nobody when
    the source language is declared (the declared language is returned),
    the Google client alone when it is configured, the Hugging Face model
    otherwise; a failed Google detection is not retried on Hugging Face.
    Whatever fails is thrown as "Language detection failed: <cause>. Please
    select a source language manually.". *)
Theorem detection_asks_one_provider
    (w : World) (sourceLang : string) (t : string) (st : State) :
  exists o,
    detect w sourceLang t st
    = (o, after st (if String.eqb sourceLang "auto"
                    then (if googleTranslateClient w
                          then [EvGoogleDetect t] else [detect_request t])
                    else [])) /\
    match o with
    | Return l => sourceLang <> "auto" -> l = JStr sourceLang
    | Throw e =>
        sourceLang = "auto" /\
        exists cause, e = Error (detection_failed_message cause)
    | Pending => False
    end.
Proof.
  unfold detect.
  destruct (String.eqb_spec sourceLang "auto") as [->|Hne].
  - unfold try_catch.
    destruct (googleTranslateClient w).
    + unfold bind, client_detect. fold (after st [EvGoogleDetect t]).
      destruct (google_detect w (trace st) t) as [l|e];
        (eexists; split; [reflexivity|]); [by intros []|].
      split; [done|]. by eexists.
    + destruct (detectLanguageWithHuggingFace_settles w t st) as (o & -> & Ho).
      destruct o as [l|e|]; [| |done];
        (eexists; split; [reflexivity|]); [by intros []|].
      split; [done|]. by eexists.
  - exists (Return (JStr sourceLang)). by rewrite after_nil.
Qed.

(** X3. When the source language is left to detection and detection fails,
    the job stops there: the pipeline throws the detection error in the
    state detection left (no translation or synthesis provider is asked),
    and the handler answers with the single event [error] "Pipeline failed:
    Language detection failed: ...". *)
Theorem detection_failure_aborts_job
    (w : World) (audioData : AudioData) (targetLang : string)
    (st : State) (t : string) (st1 : State) (e : JsError) (st2 : State) :
  1000 <= Z.of_nat (length (to_audioBuffer audioData)) ->
  transcribe w (to_audioBuffer audioData) true st = (Return t, st1) ->
  detect w "auto" t st1 = (Throw e, st2) ->
  processAudioPipeline w audioData "auto" targetLang true st = (Throw e, st2) /\
  on_audio_stream w (Some (mkAudioStream (Some audioData) None (Some targetLang))) st
  = (Return tt, after st2 [EvEmit (ErrorEvent ("Pipeline failed: " +:+ message e))]) /\
  exists cause, message e = detection_failed_message cause.
Proof.
  intros Hlen H1 H2.
  assert (processAudioPipeline w audioData "auto" targetLang true st = (Throw e, st2))
    as Hrun.
  { unfold processAudioPipeline, try_catch, bind.
    destruct (Z.ltb_spec (Z.of_nat (length (to_audioBuffer audioData))) 1000); [lia|].
    by rewrite H1, H2. }
  split; [done|]. split.
  - unfold on_audio_stream. cbn [stream_audio].
    assert (audio_missing (Some audioData) = false) as ->.
    { destruct audioData as [| | |s]; try done. simpl.
      destruct s; [simpl in Hlen; lia | done]. }
    simpl. unfold try_catch, bind. by rewrite Hrun.
  - destruct (detect_throws_detection_failed _ _ _ _ _ _ H2) as [cause ->].
    by exists cause.
Qed.

Lemma detection_failure_witness :
  processAudioPipeline all_down (AudioBuffer silence_1000) "auto" "es" true empty_state
  = (Throw (Error (detection_failed_message
                     "Hugging Face language detection failed: Network Error")),
     after empty_state
       (map (stt_post silence_1000) stt_models ++ [detect_request mock_transcript]))
  /\
  on_audio_stream all_down
    (Some (mkAudioStream (Some (AudioBuffer silence_1000)) None (Some "es")))
    empty_state
  = (Return tt,
     after
       (after empty_state
          (map (stt_post silence_1000) stt_models ++ [detect_request mock_transcript]))
       [EvEmit (ErrorEvent
           ("Pipeline failed: "
            +:+ message (Error (detection_failed_message
                  "Hugging Face language detection failed: Network Error"))))])
  /\
  exists cause,
    message (Error (detection_failed_message
                      "Hugging Face language detection failed: Network Error"))
    = detection_failed_message cause.
Proof.
  apply (detection_failure_aborts_job all_down (AudioBuffer silence_1000) "es"
           empty_state mock_transcript
           (after empty_state (map (stt_post silence_1000) stt_models))).
  - vm_compute. discriminate.
  - vm_compute. reflexivity.
  - vm_compute. reflexivity.
Defined.

(* ===================================================================== *)
(** ** The translation router, beyond the claims *)
(* ===================================================================== *)

Lemma strict_eq_str_false a s : a <> JStr s -> strict_eq_str a s = false.
Proof.
  intros Hne. destruct a; try done. simpl.
  apply String.eqb_neq. by intros ->.
Qed.

Lemma translateWithHuggingFace_without_google (w : World) text src tgt st :
  googleTranslateClient w = false \/ (tgt <> "ja" /\ src <> JStr "ja") ->
  translateWithHuggingFace w text src tgt st = direct_then_pivot w text src tgt st.
Proof.
  intros Hno. unfold translateWithHuggingFace, direct_then_pivot.
  assert (google_for_japanese w text src tgt st = (Return None, st)) as Hg.
  { unfold google_for_japanese. destruct Hno as [->|[Ht Hs]].
    - by destruct (_ || _).
    - apply String.eqb_neq in Ht. by rewrite Ht, strict_eq_str_false. }
  unfold bind at 1. by rewrite Hg.
Qed.

Lemma only_direct_then_pivot (w : World) (P : Event -> Prop) text src tgt :
  (forall model body, P (EvPost model body)) ->
  only P (direct_then_pivot w text src tgt).
Proof.
  intros HP. unfold direct_then_pivot.
  apply only_bind.
  { unfold direct_translation. apply only_try_catch; [|intros; apply only_ret].
    apply only_bind; [apply only_doTranslation, HP|].
    intros v. destruct (truthy v); apply only_ret. }
  intros [t|]; [apply only_ret|].
  unfold pivot_translation. destruct (_ && _); [|apply only_throw].
  apply only_bind; [apply only_doTranslation, HP|].
  intros v. destruct (truthy v); [|apply only_throw].
  apply only_bind; [apply only_doTranslation, HP|].
  intros v'. destruct (truthy v'); [apply only_ret | apply only_throw].
Qed.

Lemma yields_direct_then_pivot (w : World) text src tgt :
  yields (fun v => truthy v = true) (direct_then_pivot w text src tgt).
Proof.
  unfold direct_then_pivot.
  eapply (yields_bind (fun d => forall v, d = Some v -> truthy v = true)).
  { unfold direct_translation.
    apply yields_try_catch; [|intros; by apply yields_ret].
    eapply yields_bind; [apply yields_doTranslation|].
    intros v _. destruct (truthy v) eqn:Hv; apply yields_ret; [|done].
    by intros ? [= <-]. }
  intros [t|] Ht; [apply yields_ret; by apply Ht|].
  unfold pivot_translation. destruct (_ && _); [|apply yields_throw].
  eapply yields_bind; [apply yields_doTranslation|].
  intros v _. destruct (truthy v); [|apply yields_throw].
  eapply yields_bind; [apply yields_doTranslation|].
  intros v' _. destruct (truthy v') eqn:Hv'; [by apply yields_ret | apply yields_throw].
Qed.

(** X4. [doTranslation] sends exactly one request, to the model it is
    given.  What it returns is never [null] or [undefined] and comes from a
    truthy reply body; what it throws is either the very error of the
    request, or "Invalid response format from translation model" for a
    reply in none of the three accepted shapes. *)
Theorem doTranslation_contract
    (w : World) (inputText : JsVal) (model : string) (st : State) :
  let reply :=
    axios_post_json w (trace st) model (translation_payload inputText) in
  exists o,
    doTranslation w inputText model st = (o, after st [leg_post model inputText]) /\
    match o with
    | Return v => nullish v = false /\ exists data, reply = Ok data /\ truthy data = true
    | Throw e =>
        reply = Failed e \/
        ((exists data, reply = Ok data) /\
         e = Error "Invalid response format from translation model")
    | Pending => False
    end.
Proof.
  intros reply. rewrite doTranslation_eq. fold reply.
  eexists. split; [reflexivity|].
  pose proof (translation_of_not_nullish reply) as Hnn.
  destruct (translation_of reply) as [v|e|] eqn:Hof.
  - split; [by apply Hnn|]. unfold translation_of in Hof.
    destruct reply as [data|e]; [|done]. exists data.
    by destruct (truthy data).
  - unfold translation_of in Hof.
    destruct reply as [data|e0]; [|left; by injection Hof as ->].
    right. split; [by eexists|].
    destruct (truthy data); [|by injection Hof as <-].
    destruct (isArray data && _); [done|].
    destruct (as_string (js_prop data "translation")); [done|].
    destruct (as_string data); [done|]. by injection Hof as <-.
  - by apply translation_of_settles in Hof.
Qed.

(** X5. When Japanese is the source or the target and the Google client is
    configured, Google Translate is asked first.  Its translation is
    returned as it is, even an empty one, and no Hugging Face model is
    asked; when the Google call fails the router goes on with the direct
    model and the pivot, from the state after that call. *)
Theorem google_first_for_japanese
    (w : World) (text : string) (src : JsVal) (tgt : string) (st : State) :
  googleTranslateClient w = true ->
  tgt = "ja" \/ src = JStr "ja" ->
  translateWithHuggingFace w text src tgt st
  = match google_translate w (trace st) text src tgt with
    | Ok translation =>
        (Return (JStr translation), after st [EvGoogleTranslate text src tgt])
    | Failed _ =>
        direct_then_pivot w text src tgt (after st [EvGoogleTranslate text src tgt])
    end.
Proof.
  intros Hclient Hja. unfold translateWithHuggingFace, direct_then_pivot.
  unfold bind at 1. unfold google_for_japanese.
  assert (String.eqb tgt "ja" || strict_eq_str src "ja" = true) as ->.
  { destruct Hja as [->| ->]; [done|]. simpl. by rewrite orb_true_r. }
  rewrite Hclient. unfold bind at 1, client_translate.
  fold (after st [EvGoogleTranslate text src tgt]).
  by destruct (google_translate w (trace st) text src tgt).
Qed.

Lemma google_first_for_japanese_witness :
  translateWithHuggingFace google_up "hello" (JStr "en") "ja" empty_state
  = match google_translate google_up (trace empty_state) "hello" (JStr "en") "ja" with
    | Ok translation =>
        (Return (JStr translation),
         after empty_state [EvGoogleTranslate "hello" (JStr "en") "ja"])
    | Failed _ =>
        direct_then_pivot google_up "hello" (JStr "en") "ja"
          (after empty_state [EvGoogleTranslate "hello" (JStr "en") "ja"])
    end.
Proof.
  apply (google_first_for_japanese google_up "hello" (JStr "en") "ja" empty_state).
  - reflexivity.
  - left. reflexivity.
Defined.

(** X6. Google Translate is asked in no other case: without a configured
    client, or when neither the source nor the target is Japanese, no
    event of the router is a call to the Google client. *)
Theorem google_only_for_japanese
    (w : World) (text : string) (src : JsVal) (tgt : string) :
  googleTranslateClient w = false \/ (tgt <> "ja" /\ src <> JStr "ja") ->
  only (fun ev => is_google_translate ev = false)
       (translateWithHuggingFace w text src tgt).
Proof.
  intros Hno st.
  rewrite (translateWithHuggingFace_without_google w text src tgt st Hno).
  by apply only_direct_then_pivot.
Qed.

Lemma google_only_for_japanese_witness :
  only (fun ev => is_google_translate ev = false)
       (translateWithHuggingFace google_up "bonjour" (JStr "fr") "ko").
Proof.
  apply (google_only_for_japanese google_up "bonjour" (JStr "fr") "ko").
  right. split; discriminate.
Defined.

(** X7. When Google is not involved and the direct model for the pair
    returns something truthy, that is the translation: the router returns
    it after this single request, and no pivot request is sent. *)
Theorem direct_model_wins
    (w : World) (text : string) (src : JsVal) (tgt : string) (st : State)
    (v : JsVal) :
  googleTranslateClient w = false \/ (tgt <> "ja" /\ src <> JStr "ja") ->
  leg_answer w st [] (opus_mt (js_to_string src) tgt) (JStr text) = Some v ->
  translateWithHuggingFace w text src tgt st
  = (Return v, after st [leg_post (opus_mt (js_to_string src) tgt) (JStr text)]).
Proof.
  intros Hno Hdirect.
  rewrite (translateWithHuggingFace_without_google w text src tgt st Hno).
  unfold direct_then_pivot, bind. by rewrite direct_translation_eq, Hdirect.
Qed.

Lemma direct_model_wins_witness :
  translateWithHuggingFace all_up "hello" (JStr "en") "es" empty_state
  = (Return (JStr "hola"),
     after empty_state [leg_post (opus_mt (js_to_string (JStr "en")) "es") (JStr "hello")]).
Proof.
  apply (direct_model_wins all_up "hello" (JStr "en") "es" empty_state (JStr "hola")).
  - left. reflexivity.
  - vm_compute. reflexivity.
Defined.

(** X8. When Google is not involved, whatever the router returns is truthy:
    never an empty string, [null], [undefined], [0] or [false].  An empty
    translation from a model counts as a failure of that model. *)
Theorem router_returns_truthy
    (w : World) (text : string) (src : JsVal) (tgt : string) (st : State)
    (v : JsVal) (st' : State) :
  googleTranslateClient w = false \/ (tgt <> "ja" /\ src <> JStr "ja") ->
  translateWithHuggingFace w text src tgt st = (Return v, st') ->
  truthy v = true.
Proof.
  intros Hno Hrun.
  rewrite (translateWithHuggingFace_without_google w text src tgt st Hno) in Hrun.
  pose proof (yields_direct_then_pivot w text src tgt st) as Hy.
  by rewrite Hrun in Hy.
Qed.

Lemma router_returns_truthy_witness : truthy (JStr "annyeong") = true.
Proof.
  apply (router_returns_truthy pivot_world "bonjour" (JStr "fr") "ko" empty_state
           (JStr "annyeong")
           (after empty_state
              [ leg_post "Helsinki-NLP/opus-mt-fr-ko" (JStr "bonjour");
                leg_post "Helsinki-NLP/opus-mt-fr-en" (JStr "bonjour");
                leg_post "Helsinki-NLP/opus-mt-en-ko" (JStr "hello") ])).
  - left. reflexivity.
  - vm_compute. reflexivity.
Defined.

(* ===================================================================== *)
(** ** Speech synthesis, beyond the claims *)
(* ===================================================================== *)

Lemma yields_tts_fallback_loop_long (w : World) text models :
  yields (fun a => 100 < Z.of_nat (length a)) (tts_fallback_loop w text models).
Proof.
  induction models as [|m models IH]; simpl; [apply yields_throw|].
  eapply yields_bind; [apply yields_post_arraybuffer|].
  intros [data|e] _; [|done].
  destruct (Z.ltb_spec 100 (Z.of_nat (length data))); [by apply yields_ret | done].
Qed.

(** X9. Audio returned by [textToSpeechWithHuggingFace] is never shorter
    than 100 bytes (shorter replies count as failures of the model), so
    the client's playback guard, which rejects payloads under 50 bytes,
    never rejects audio that came from a Hugging Face model. *)
Theorem hugging_face_audio_is_playable
    (w : World) (text : JsVal) (targetLang : string) (st : State)
    (a : Buffer) (st' : State) :
  textToSpeechWithHuggingFace w text targetLang st = (Return a, st') ->
  100 <= Z.of_nat (length a) /\ not_playable (Some a) = false.
Proof.
  intros Hrun.
  assert (yields (fun a => 100 <= Z.of_nat (length a))
            (textToSpeechWithHuggingFace w text targetLang)) as Hy.
  { unfold textToSpeechWithHuggingFace. apply yields_try_catch.
    - destruct text; try apply yields_throw.
      eapply yields_bind; [apply yields_post_arraybuffer|].
      intros [data|e] _; [|apply yields_throw].
      destruct (Z.ltb_spec (Z.of_nat (length data)) 100);
        [apply yields_throw | by apply yields_ret].
    - intros _ s. pose proof (yields_tts_fallback_loop_long w text fallbackModels s).
      destruct (fst _); [lia|done|done]. }
  specialize (Hy st). rewrite Hrun in Hy. simpl in Hy. split; [done|].
  unfold not_playable. apply Z.ltb_ge. lia.
Qed.

Lemma hugging_face_audio_witness :
  100 <= Z.of_nat (length audio_101) /\ not_playable (Some audio_101) = false.
Proof.
  apply (hugging_face_audio_is_playable espnet_only (JStr "hola") "es" empty_state
           audio_101
           (after empty_state
              [ tts_post (JStr "hola") "facebook/mms-tts-spa";
                tts_post (JStr "hola") "suno/bark";
                tts_post (JStr "hola") "espnet/kan-bayashi_ljspeech_vits" ])).
  vm_compute. reflexivity.
Defined.

(** X10. [textToSpeechWithGoogle] touches no file but its temporary file:
    whatever happens, every other path holds afterwards what it held
    before. *)
Theorem google_tts_touches_only_its_temp_file
    (w : World) (text : JsVal) (lang : string) (st : State) (p : string) :
  p <> gtts_path w st text lang ->
  fs (snd (textToSpeechWithGoogle w text lang st)) !! p = fs st !! p.
Proof.
  intros Hp. rewrite textToSpeechWithGoogle_eq.
  destruct (gtts_new _ _ _ _); [done|]. simpl.
  destruct (gtts_save _ _ _ _ _) as [mp3|err [part|]|[part|]]; simpl;
    [| |done| |done].
  - by rewrite lookup_delete_ne, lookup_insert_ne.
  - by rewrite lookup_insert_ne.
  - by rewrite lookup_insert_ne.
Qed.

Lemma google_tts_frame_witness :
  fs (snd (textToSpeechWithGoogle all_up (JStr "hola") "es" empty_state))
    !! "/etc/passwd"
  = fs empty_state !! "/etc/passwd".
Proof.
  apply (google_tts_touches_only_its_temp_file all_up (JStr "hola") "es" empty_state
           "/etc/passwd").
  vm_compute. discriminate.
Defined.

(** X11. A successful [textToSpeechWithGoogle] returns exactly the bytes
    gTTS wrote, and leaves no file at the temporary path, even if a file
    of that name existed before the call. *)
Theorem google_tts_returns_what_was_saved
    (w : World) (text : JsVal) (lang : string) (st : State)
    (a : Buffer) (st' : State) :
  textToSpeechWithGoogle w text lang st = (Return a, st') ->
  let path := gtts_path w st text lang in
  gtts_save w (trace st ++ [EvGttsNew text lang]) text lang path = SaveOk a /\
  fs st' = delete path (fs st).
Proof.
  rewrite textToSpeechWithGoogle_eq.
  destruct (gtts_new _ _ _ _); [done|]. simpl.
  destruct (gtts_save _ _ _ _ _) as [mp3|err part|part]; [|done..].
  intros [= <- <-]. simpl. split; [done|]. apply delete_insert_eq.
Qed.

Lemma google_tts_returns_what_was_saved_witness :
  let path := gtts_path all_up empty_state (JStr "hola") "es" in
  gtts_save all_up (trace empty_state ++ [EvGttsNew (JStr "hola") "es"])
    (JStr "hola") "es" path = SaveOk mp3_200 /\
  fs (mkState
        [ EvGttsNew (JStr "hola") "es"; EvGttsSave "/tmp/tts-1700000000000.mp3";
          EvReadFile "/tmp/tts-1700000000000.mp3";
          EvUnlink "/tmp/tts-1700000000000.mp3" ] ∅)
  = delete path (fs empty_state).
Proof.
  apply (google_tts_returns_what_was_saved all_up (JStr "hola") "es" empty_state
           mp3_200).
  vm_compute. reflexivity.
Defined.

(** X12. The Spanish model is the language-specific model exactly for
    Spanish and for the codes that are neither listed in the model table
    nor the name of a property the table inherits from [Object.prototype];
    each of the eight other listed languages has a model of its own, and
    an inherited name selects the inherited property instead. *)
Theorem spanish_model_iff (targetLang : string) :
  tts_model targetLang = "facebook/mms-tts-spa"
  <-> targetLang = "es"
      \/ ((targetLang ∉ tts_languages) /\ (targetLang ∉ inherited_names)).
Proof.
  split.
  - intros Hm. destruct (decide (targetLang ∈ tts_languages)) as [Hin|Hnot].
    { left. unfold tts_languages in Hin.
      repeat (apply elem_of_cons in Hin as [->|Hin];
              [done || (vm_compute in Hm; discriminate)|]).
      by apply elem_of_nil in Hin. }
    right. split; [done|]. intros Hin.
    unfold inherited_names, Object_prototype in Hin. simpl in Hin.
    repeat (apply elem_of_cons in Hin as [->|Hin];
            [vm_compute in Hm; discriminate|]).
    by apply elem_of_nil in Hin.
  - intros [->|[Hnot Hown]]; [by vm_compute|].
    by rewrite tts_model_unlisted, inherited_None.
Qed.

(* ===================================================================== *)
(** ** Whole jobs, beyond the claims *)
(* ===================================================================== *)


(** X13. A present audio payload of fewer than 1000 bytes, an empty
    [Buffer] included, is answered with the single event [error]
    "Pipeline failed: Audio buffer too small - may be empty" (not with
    "No audio data received."), and nothing else happens. *)
Theorem handler_rejects_short_audio
    (w : World) (data : AudioStream) (audioData : AudioData) (st : State) :
  stream_audio data = Some audioData ->
  audio_missing (Some audioData) = false ->
  Z.of_nat (length (to_audioBuffer audioData)) < 1000 ->
  on_audio_stream w (Some data) st
  = (Return tt,
     after st [EvEmit (ErrorEvent
                         "Pipeline failed: Audio buffer too small - may be empty")]).
Proof.
  intros Haudio Hpresent Hsmall. unfold on_audio_stream.
  rewrite Haudio, Hpresent. unfold try_catch, bind.
  rewrite pipeline_size_check by by apply Z.ltb_lt. done.
Qed.

Lemma handler_rejects_short_audio_witness :
  on_audio_stream all_up
    (Some (mkAudioStream (Some (AudioBuffer [])) (Some "en") (Some "es")))
    empty_state
  = (Return tt,
     after empty_state
       [EvEmit (ErrorEvent "Pipeline failed: Audio buffer too small - may be empty")]).
Proof.
  apply (handler_rejects_short_audio all_up _ (AudioBuffer []) empty_state).
  - reflexivity.
  - reflexivity.
  - vm_compute. reflexivity.
Defined.


Lemma opus_mt_prefix a b : String.prefix "Helsinki-NLP/opus-mt-" (opus_mt a b) = true.
Proof.
  unfold opus_mt.
  change ("Helsinki-NLP/opus-mt-" +:+ a +:+ "-" +:+ b)
    with ("Helsinki-NLP/opus-mt-" +:+ (a +:+ "-" +:+ b)).
  generalize (a +:+ "-" +:+ b). intros s. simpl.
  repeat match goal with
         | |- context [Ascii.ascii_dec ?x ?y] => destruct (Ascii.ascii_dec x y); [|done]
         end.
  by destruct s.
Qed.

Lemma prefix_head a s1 b s2 :
  String.prefix (String a s1) (String b s2) = true -> a = b.
Proof.
  cbn [String.prefix]. by destruct (Ascii.ascii_dec a b).
Qed.

Lemma stages_of_at_most_one ev : (stages_of ev <= 1)%nat.
Proof.
  unfold stages_of.
  destruct ev as [model [b|v]| | | | | | |[| |]]; simpl; try lia.
  destruct (bool_decide (model ∈ synthesis_models)) eqn:Hsyn.
  - apply bool_decide_eq_true in Hsyn.
    assert (Forall (fun m => (Nat.b2n (String.eqb m detect_model)
                              + Nat.b2n (String.prefix "Helsinki-NLP/opus-mt-" m)
                              + 1 <= 1)%nat) synthesis_models) as Hall
      by (apply (bool_decide_unpack _); by vm_compute).
    rewrite Forall_forall in Hall. by apply Hall.
  - destruct (String.eqb_spec model detect_model) as [->|_]; [vm_compute; lia|].
    simpl. destruct (String.prefix _ model); simpl; lia.
Qed.

Lemma stt_event_transcribe (w : World) audioBuffer socket :
  only (fun ev => is_stt_event ev = true) (transcribe w audioBuffer socket).
Proof.
  unfold transcribe, mockSpeechToText.
  apply only_try_catch; [|intros; apply only_ret].
  apply only_bind.
  { apply only_stt_loop. apply Forall_forall. by intros m _. }
  intros t. apply only_bind; [|intros; apply only_ret].
  destruct socket; [by apply only_emit | apply only_ret].
Qed.

Lemma detect_event_detect (w : World) sourceLang t :
  only (fun ev => is_detect_event ev = true) (detect w sourceLang t).
Proof.
  unfold detect. destruct (String.eqb sourceLang "auto"); [|apply only_ret].
  apply only_try_catch; [|intros; apply only_throw].
  destruct (googleTranslateClient w).
  - apply only_bind; [by apply only_client_detect|].
    intros [l|e]; [apply only_ret | apply only_throw].
  - intros st. destruct (detectLanguageWithHuggingFace_settles w t st) as (o & -> & _).
    exists [detect_request t]. split; [done|]. by repeat constructor.
Qed.

Lemma translation_event_translate (w : World) t l targetLang :
  only (fun ev => is_translation_event ev = true) (translate w t l targetLang).
Proof.
  assert (forall x model,
            only (fun ev => is_translation_event ev = true)
                 (doTranslation w x (opus_mt model targetLang)) /\
            only (fun ev => is_translation_event ev = true)
                 (doTranslation w x (opus_mt model "en"))) as Hleg.
  { intros x model. split; apply only_doTranslation; apply opus_mt_prefix. }
  unfold translate, mockTranslation.
  destruct (strict_eq_str _ _); [apply only_ret|].
  apply only_try_catch; [|intros; apply only_ret].
  unfold translateWithHuggingFace.
  apply only_bind.
  { unfold google_for_japanese. destruct (_ || _); [|apply only_ret].
    destruct (googleTranslateClient w); [|apply only_ret].
    apply only_bind; [by apply only_client_translate|].
    intros [?|?]; apply only_ret. }
  intros [g|]; [apply only_ret|].
  apply only_bind.
  { unfold direct_translation. apply only_try_catch; [|intros; apply only_ret].
    apply only_bind; [apply Hleg|].
    intros v. destruct (truthy v); apply only_ret. }
  intros [d|]; [apply only_ret|].
  unfold pivot_translation. destruct (_ && _); [|apply only_throw].
  apply only_bind; [apply Hleg|].
  intros v. destruct (truthy v); [|apply only_throw].
  apply only_bind; [apply (Hleg v "en")|].
  intros v'. destruct (truthy v'); [apply only_ret | apply only_throw].
Qed.

Lemma synthesis_event_synthesize (w : World) text targetLang :
  only (fun ev => is_synthesis_event ev = true) (synthesize w text targetLang).
Proof.
  apply only_synthesize; [done|].
  apply Forall_cons. split; [|by repeat constructor].
  simpl. apply bool_decide_eq_true, tts_model_values.
Qed.

(** X15. The stages of a job run strictly one after the other: what a
    pipeline run adds to the trace is a block of transcription events,
    then a block of detection events, then a block of translation events,
    then a block of synthesis events (later blocks being empty when the run
    stops early), and no event can belong to two stages. *)
Theorem stages_run_in_order
    (w : World) (audioData : AudioData) (sourceLang targetLang : string)
    (socket : bool) (st : State) :
  (exists e1 e2 e3 e4,
      trace (snd (processAudioPipeline w audioData sourceLang targetLang socket st))
      = trace st ++ e1 ++ e2 ++ e3 ++ e4 /\
      Forall (fun ev => is_stt_event ev = true) e1 /\
      Forall (fun ev => is_detect_event ev = true) e2 /\
      Forall (fun ev => is_translation_event ev = true) e3 /\
      Forall (fun ev => is_synthesis_event ev = true) e4)
  /\ forall ev, (stages_of ev <= 1)%nat.
Proof.
  split; [|apply stages_of_at_most_one].
  unfold processAudioPipeline, try_catch, bind.
  destruct (_ <? 1000).
  { exists [], [], [], []. simpl. by rewrite app_nil_r. }
  destruct (stt_event_transcribe w (to_audioBuffer audioData) socket st)
    as (e1 & E1 & F1).
  destruct (transcribe _ _ _ _) as [[t|e|] st1]; simpl in E1;
    [|exists e1, [], [], []; simpl; by rewrite app_nil_r..].
  destruct (detect_event_detect w sourceLang t st1) as (e2 & E2 & F2).
  destruct (detect _ _ _ _) as [[l|e|] st2]; simpl in E2;
    [|exists e1, e2, [], []; simpl; by rewrite E2, E1, app_nil_r, app_assoc..].
  destruct (translation_event_translate w t l targetLang st2) as (e3 & E3 & F3).
  destruct (translate _ _ _ _ _) as [[tr|e|] st3]; simpl in E3;
    [|exists e1, e2, e3, []; simpl;
      by rewrite E3, E2, E1, app_nil_r, !app_assoc..].
  destruct (synthesis_event_synthesize w tr targetLang st3) as (e4 & E4 & F4).
  destruct (synthesize _ _ _ _) as [[a|e|] st4]; simpl in E4;
    exists e1, e2, e3, e4; simpl; by rewrite E4, E3, E2, E1, !app_assoc.
Qed.

(* ===================================================================== *)
(** ** How many requests a job sends *)
(* ===================================================================== *)

Section Requests.

Variable w : World.

Lemma posts_app a b : posts (a ++ b) = posts a ++ posts b.
Proof. apply omap_app. Qed.

Lemma posts_at_most_ret {A} (a : A) : posts_at_most 0 (ret a).
Proof. intros st. exists []. by rewrite app_nil_r. Qed.

Lemma posts_at_most_throw {A} e : posts_at_most 0 (@throw A e).
Proof. intros st. exists []. by rewrite app_nil_r. Qed.

Lemma posts_at_most_weaken {A} n n' (m : M A) :
  (n <= n')%nat -> posts_at_most n m -> posts_at_most n' m.
Proof.
  intros Hle Hm st. destruct (Hm st) as (evs & E & L).
  exists evs. split; [done | lia].
Qed.

Lemma posts_at_most_bind {A B} n1 n2 (m : M A) (k : A -> M B) :
  posts_at_most n1 m -> (forall a, posts_at_most n2 (k a)) ->
  posts_at_most (n1 + n2) (bind m k).
Proof.
  intros Hm Hk st. unfold bind.
  destruct (Hm st) as (evs1 & H1 & L1).
  destruct (m st) as [[a|e|] st1]; simpl in *;
    [|exists evs1; split; [done | lia]..].
  destruct (Hk a st1) as (evs2 & H2 & L2).
  exists (evs1 ++ evs2). rewrite H2, H1, app_assoc. split; [done|].
  rewrite posts_app, length_app. lia.
Qed.

Lemma posts_at_most_try_catch {A} n1 n2 (m : M A) (h : JsError -> M A) :
  posts_at_most n1 m -> (forall e, posts_at_most n2 (h e)) ->
  posts_at_most (n1 + n2) (try_catch m h).
Proof.
  intros Hm Hh st. unfold try_catch.
  destruct (Hm st) as (evs1 & H1 & L1).
  destruct (m st) as [[a|e|] st1]; simpl in *;
    [exists evs1; split; [done | lia]| |exists evs1; split; [done | lia]].
  destruct (Hh e st1) as (evs2 & H2 & L2).
  exists (evs1 ++ evs2). rewrite H2, H1, app_assoc. split; [done|].
  rewrite posts_app, length_app. lia.
Qed.

Lemma posts_not_post evs : Forall (fun ev => is_post ev = false) evs -> posts evs = [].
Proof.
  induction 1 as [|ev evs Hev _ IH]; [done|].
  change (ev :: evs) with ([ev] ++ evs). rewrite posts_app, IH. by destruct ev.
Qed.

Lemma posts_at_most_of_only {A} (m : M A) :
  only (fun ev => is_post ev = false) m -> posts_at_most 0 m.
Proof.
  intros Hm st. destruct (Hm st) as (evs & E & F). exists evs. split; [done|].
  by rewrite (posts_not_post _ F).
Qed.

Lemma posts_at_most_post_json model body : posts_at_most 1 (post_json w model body).
Proof. intros st. by exists [EvPost model body]. Qed.

Lemma posts_at_most_post_arraybuffer model body :
  posts_at_most 1 (post_arraybuffer w model body).
Proof. intros st. by exists [EvPost model (BodyJson body)]. Qed.

Lemma posts_at_most_stt_loop audioBuffer models :
  posts_at_most (length models) (stt_loop w audioBuffer models).
Proof.
  induction models as [|m models IH]; simpl; [apply posts_at_most_throw|].
  apply (posts_at_most_bind 1 (length models)); [apply posts_at_most_post_json|].
  intros [data|e]; [|done].
  destruct (truthy data); [|done].
  destruct (as_string _); [|done].
  eapply posts_at_most_weaken; [|apply posts_at_most_ret]. lia.
Qed.

Lemma posts_at_most_tts_fallback_loop text models :
  posts_at_most (length models) (tts_fallback_loop w text models).
Proof.
  induction models as [|m models IH]; simpl; [apply posts_at_most_throw|].
  apply (posts_at_most_bind 1 (length models));
    [apply posts_at_most_post_arraybuffer|].
  intros [data|e]; [|done].
  destruct (100 <? _); [|done].
  eapply posts_at_most_weaken; [|apply posts_at_most_ret]. lia.
Qed.

Lemma posts_at_most_transcribe audioBuffer socket :
  posts_at_most 2 (transcribe w audioBuffer socket).
Proof.
  unfold transcribe, mockSpeechToText.
  apply (posts_at_most_try_catch 2 0); [|intros; apply posts_at_most_ret].
  apply (posts_at_most_bind 2 0); [apply (posts_at_most_stt_loop _ stt_models)|].
  intros t. apply (posts_at_most_bind 0 0); [|intros; apply posts_at_most_ret].
  apply posts_at_most_of_only.
  destruct socket; [by apply only_emit | apply only_ret].
Qed.

Lemma posts_at_most_detect sourceLang t :
  posts_at_most 1 (detect w sourceLang t).
Proof.
  intros st. unfold detect.
  destruct (String.eqb sourceLang "auto").
  2: { exists []. simpl. rewrite app_nil_r. split; [done | lia]. }
  unfold try_catch. destruct (googleTranslateClient w).
  - exists [EvGoogleDetect t]. unfold bind, client_detect.
    destruct (google_detect w (trace st) t); simpl; (split; [done | lia]).
  - exists [detect_request t].
    destruct (detectLanguageWithHuggingFace_settles w t st) as (o & -> & _).
    destruct o; simpl; (split; [done | lia]).
Qed.

Lemma posts_at_most_doTranslation x model :
  posts_at_most 1 (doTranslation w x model).
Proof.
  intros st. rewrite doTranslation_eq. by exists [leg_post model x].
Qed.

Lemma posts_at_most_translate t l targetLang :
  posts_at_most 3 (translate w t l targetLang).
Proof.
  unfold translate, mockTranslation.
  destruct (strict_eq_str _ _).
  { eapply posts_at_most_weaken; [|apply posts_at_most_ret]. lia. }
  apply (posts_at_most_try_catch 3 0); [|intros; apply posts_at_most_ret].
  unfold translateWithHuggingFace.
  apply (posts_at_most_bind 0 3).
  { apply posts_at_most_of_only. unfold google_for_japanese.
    destruct (_ || _); [|apply only_ret].
    destruct (googleTranslateClient w); [|apply only_ret].
    apply only_bind; [by apply only_client_translate|].
    intros [?|?]; apply only_ret. }
  intros [g|].
  { eapply posts_at_most_weaken; [|apply posts_at_most_ret]. lia. }
  apply (posts_at_most_bind 1 2).
  { unfold direct_translation.
    apply (posts_at_most_try_catch 1 0); [|intros; apply posts_at_most_ret].
    apply (posts_at_most_bind 1 0); [apply posts_at_most_doTranslation|].
    intros v. destruct (truthy v); apply posts_at_most_ret. }
  intros [d|].
  { eapply posts_at_most_weaken; [|apply posts_at_most_ret]. lia. }
  unfold pivot_translation.
  destruct (_ && _);
    [|eapply posts_at_most_weaken; [|apply posts_at_most_throw]; lia].
  apply (posts_at_most_bind 1 1); [apply posts_at_most_doTranslation|].
  intros v. destruct (truthy v);
    [|eapply posts_at_most_weaken; [|apply posts_at_most_throw]; lia].
  apply (posts_at_most_bind 1 0); [apply posts_at_most_doTranslation|].
  intros v'. destruct (truthy v'); [apply posts_at_most_ret | apply posts_at_most_throw].
Qed.

Lemma posts_at_most_synthesize text targetLang :
  posts_at_most 4 (synthesize w text targetLang).
Proof.
  unfold synthesize, mockTextToSpeech.
  apply (posts_at_most_try_catch 4 0); [|intros; apply posts_at_most_ret].
  apply (posts_at_most_try_catch 0 4).
  { apply posts_at_most_of_only. by apply only_textToSpeechWithGoogle. }
  intros _. unfold textToSpeechWithHuggingFace.
  apply (posts_at_most_try_catch 1 3);
    [|intros; apply (posts_at_most_tts_fallback_loop _ fallbackModels)].
  destruct text;
    try (eapply posts_at_most_weaken; [|apply posts_at_most_throw]; lia).
  apply (posts_at_most_bind 1 0); [apply posts_at_most_post_arraybuffer|].
  intros [data|e]; [|apply posts_at_most_throw].
  destruct (_ <? 100); [apply posts_at_most_throw | apply posts_at_most_ret].
Qed.

End Requests.

(** X16. One job sends at most ten requests to Hugging Face: at most two
    for transcription, one for detection, three for translation and four
    for synthesis. *)
Theorem job_sends_at_most_ten_requests (w : World) :
  (forall audioBuffer socket, posts_at_most 2 (transcribe w audioBuffer socket)) /\
  (forall sourceLang t, posts_at_most 1 (detect w sourceLang t)) /\
  (forall t l targetLang, posts_at_most 3 (translate w t l targetLang)) /\
  (forall text targetLang, posts_at_most 4 (synthesize w text targetLang)) /\
  (forall payload, posts_at_most 10 (on_audio_stream w payload)).
Proof.
  repeat split;
    [apply posts_at_most_transcribe | apply posts_at_most_detect
    | apply posts_at_most_translate | apply posts_at_most_synthesize|].
  intros [data|];
    [|eapply posts_at_most_weaken; [|apply posts_at_most_throw]; lia].
  unfold on_audio_stream.
  assert (forall e, posts_at_most 0 (emit e)) as Hemit.
  { intros e. apply posts_at_most_of_only. by apply only_emit. }
  destruct (audio_missing _);
    [eapply posts_at_most_weaken; [|apply Hemit]; lia|].
  destruct (stream_audio data) as [audioData|];
    [|eapply posts_at_most_weaken; [|apply Hemit]; lia].
  apply (posts_at_most_try_catch 10 0); [|intros; apply Hemit].
  apply (posts_at_most_bind 10 0); [|intros; apply Hemit].
  unfold processAudioPipeline.
  apply (posts_at_most_try_catch 10 0); [|intros; apply posts_at_most_throw].
  cbv zeta. destruct (_ <? 1000);
    [eapply posts_at_most_weaken; [|apply posts_at_most_throw]; lia|].
  apply (posts_at_most_bind 2 8); [apply posts_at_most_transcribe|]. intros t.
  apply (posts_at_most_bind 1 7); [apply posts_at_most_detect|]. intros l.
  apply (posts_at_most_bind 3 4); [apply posts_at_most_translate|]. intros tr.
  apply (posts_at_most_bind 4 0); [apply posts_at_most_synthesize|]. intros a.
  apply posts_at_most_ret.
Qed.

(** The bound is reached: detection and the first pivot leg answer, every
    other request fails. *)
Example job_with_ten_requests :
  length (posts (trace (snd (on_audio_stream detection_only (Some auto_to_spanish)
                               empty_state)))) = 10%nat.
Proof. vm_compute. reflexivity. Qed.

(* ===================================================================== *)
(** ** What a job does to the file system *)
(* ===================================================================== *)

Section Files.

Variable w : World.

Lemma keeps_fs_ret {A} (a : A) : keeps_fs (ret a).
Proof. done. Qed.

Lemma keeps_fs_throw {A} e : keeps_fs (@throw A e).
Proof. done. Qed.

Lemma keeps_fs_bind {A B} (m : M A) (k : A -> M B) :
  keeps_fs m -> (forall a, keeps_fs (k a)) -> keeps_fs (bind m k).
Proof.
  intros Hm Hk st. unfold bind. specialize (Hm st).
  destruct (m st) as [[a|e|] st1]; simpl in *; [|done..].
  by rewrite Hk.
Qed.

Lemma keeps_fs_try_catch {A} (m : M A) (h : JsError -> M A) :
  keeps_fs m -> (forall e, keeps_fs (h e)) -> keeps_fs (try_catch m h).
Proof.
  intros Hm Hh st. unfold try_catch. specialize (Hm st).
  destruct (m st) as [[a|e|] st1]; simpl in *; [done| |done].
  by rewrite Hh.
Qed.

Lemma keeps_fs_stt_loop audioBuffer models :
  keeps_fs (stt_loop w audioBuffer models).
Proof.
  induction models as [|m models IH]; simpl; [apply keeps_fs_throw|].
  apply keeps_fs_bind; [done|].
  intros [data|e]; [|done].
  destruct (truthy data); [|done].
  by destruct (as_string _).
Qed.

Lemma keeps_fs_tts_fallback_loop text models :
  keeps_fs (tts_fallback_loop w text models).
Proof.
  induction models as [|m models IH]; simpl; [apply keeps_fs_throw|].
  apply keeps_fs_bind; [done|].
  intros [data|e]; [|done].
  by destruct (100 <? _).
Qed.

Lemma keeps_fs_transcribe audioBuffer socket :
  keeps_fs (transcribe w audioBuffer socket).
Proof.
  unfold transcribe. apply keeps_fs_try_catch; [|done].
  apply keeps_fs_bind; [apply keeps_fs_stt_loop|].
  intros t. apply keeps_fs_bind; [by destruct socket | done].
Qed.

Lemma keeps_fs_detect sourceLang t : keeps_fs (detect w sourceLang t).
Proof.
  intros st. unfold detect. destruct (String.eqb sourceLang "auto"); [|done].
  unfold try_catch. destruct (googleTranslateClient w).
  - unfold bind, client_detect. by destruct (google_detect w (trace st) t).
  - destruct (detectLanguageWithHuggingFace_settles w t st) as (o & -> & _).
    by destruct o.
Qed.

Lemma keeps_fs_doTranslation x model : keeps_fs (doTranslation w x model).
Proof. intros st. by rewrite doTranslation_eq. Qed.

Lemma keeps_fs_translate t l targetLang : keeps_fs (translate w t l targetLang).
Proof.
  unfold translate. destruct (strict_eq_str _ _); [done|].
  apply keeps_fs_try_catch; [|done].
  unfold translateWithHuggingFace. apply keeps_fs_bind.
  { unfold google_for_japanese. destruct (_ || _); [|done].
    destruct (googleTranslateClient w); [|done].
    apply keeps_fs_bind; [done|]. by intros [?|?]. }
  intros [g|]; [done|]. apply keeps_fs_bind.
  { unfold direct_translation. apply keeps_fs_try_catch; [|done].
    apply keeps_fs_bind; [apply keeps_fs_doTranslation|].
    intros v. by destruct (truthy v). }
  intros [d|]; [done|].
  unfold pivot_translation. destruct (_ && _); [|done].
  apply keeps_fs_bind; [apply keeps_fs_doTranslation|].
  intros v. destruct (truthy v); [|done].
  apply keeps_fs_bind; [apply keeps_fs_doTranslation|].
  intros v'. by destruct (truthy v').
Qed.

Lemma keeps_fs_textToSpeechWithHuggingFace text targetLang :
  keeps_fs (textToSpeechWithHuggingFace w text targetLang).
Proof.
  unfold textToSpeechWithHuggingFace.
  apply keeps_fs_try_catch; [|intros; apply keeps_fs_tts_fallback_loop].
  destruct text; try done.
  apply keeps_fs_bind; [done|].
  intros [data|e]; [|done]. by destruct (_ <? 100).
Qed.

Lemma textToSpeechWithGoogle_frame text lang st p :
  p <> gtts_path w st text lang ->
  fs (snd (textToSpeechWithGoogle w text lang st)) !! p = fs st !! p.
Proof.
  intros Hp. rewrite textToSpeechWithGoogle_eq.
  destruct (gtts_new _ _ _ _); [done|]. simpl.
  destruct (gtts_save _ _ _ _ _) as [mp3|err [part|]|[part|]]; simpl;
    [| |done| |done].
  - by rewrite lookup_delete_ne, lookup_insert_ne.
  - by rewrite lookup_insert_ne.
  - by rewrite lookup_insert_ne.
Qed.

Lemma synthesize_frame text targetLang st p :
  p <> gtts_path w st text targetLang ->
  fs (snd (synthesize w text targetLang st)) !! p = fs st !! p.
Proof.
  intros Hp. rewrite synthesize_eq.
  pose proof (textToSpeechWithGoogle_frame text targetLang st p Hp) as Hg.
  destruct (textToSpeechWithGoogle w text targetLang st) as [[mp3|e|] stG];
    simpl in *; [done| |done].
  pose proof (keeps_fs_textToSpeechWithHuggingFace text targetLang stG) as Hhf.
  destruct (textToSpeechWithHuggingFace w text targetLang stG) as [[a|e'|] st'];
    simpl in *; by rewrite Hhf.
Qed.

End Files.

(** X17. A job touches no file but one temporary file named
    [<tmpdir>/tts-<n>.mp3]: whatever the providers do, every other path
    holds after the job what it held before. *)
Theorem job_touches_only_a_temp_file
    (w : World) (payload : option AudioStream) (st : State) :
  exists path,
    is_tmp_name w path /\
    forall p, p <> path ->
      fs (snd (on_audio_stream w payload st)) !! p = fs st !! p.
Proof.
  assert (is_tmp_name w (tmpdir w +:+ "/tts-" +:+ pretty 0 +:+ ".mp3")) as H0
    by by exists 0.
  destruct payload as [data|]; [|by eexists].
  unfold on_audio_stream.
  destruct (audio_missing _); [by eexists|].
  destruct (stream_audio data) as [audioData|]; [|by eexists].
  set (sourceLang := default "auto" (stream_sourceLang data)).
  set (targetLang := default "es" (stream_targetLang data)).
  unfold try_catch at 1. unfold bind at 1.
  unfold processAudioPipeline, try_catch, bind. cbv zeta.
  destruct (_ <? 1000); [by eexists|].
  pose proof (keeps_fs_transcribe w (to_audioBuffer audioData) true st) as K1.
  destruct (transcribe _ _ _ _) as [[t|e|] st1]; simpl in K1;
    [|eexists; split; [exact H0|]; intros; simpl; by rewrite K1..].
  pose proof (keeps_fs_detect w sourceLang t st1) as K2.
  destruct (detect _ _ _ _) as [[l|e|] st2]; simpl in K2;
    [|eexists; split; [exact H0|]; intros; simpl; by rewrite K2, K1..].
  pose proof (keeps_fs_translate w t l targetLang st2) as K3.
  destruct (translate _ _ _ _ _) as [[tr|e|] st3]; simpl in K3;
    [|eexists; split; [exact H0|]; intros; simpl; by rewrite K3, K2, K1..].
  exists (gtts_path w st3 tr targetLang). split; [by eexists|].
  intros p Hp. pose proof (synthesize_frame w tr targetLang st3 p Hp) as K4.
  destruct (synthesize _ _ _ _) as [[a|e|] st4]; simpl in *;
    by rewrite K4, K3, K2, K1.
Qed.

(* ===================================================================== *)
(** ** The health endpoint *)
(* ===================================================================== *)

(** X18. [GET /api/health] reports "healthy" exactly when the token is set
    (and not empty) and the probe of huggingface.co succeeds, and
    "degraded" otherwise; [apiAccessible] is then true, and it is never
    true without [huggingFace] being true.  At most one probe is sent, and
    none without a token. *)
Theorem health_report_is_consistent (env : Env) :
  let report := fst (api_health env) in
  let requests := snd (api_health env) in
  (status report = "healthy"
   <-> token_set env = true /\ exists body, axios_get_models env = Ok body) /\
  (status report = "degraded" <-> status report <> "healthy") /\
  (services_apiAccessible report = true <-> status report = "healthy") /\
  (services_apiAccessible report = true -> services_huggingFace report = true) /\
  (token_set env = false -> requests = []) /\
  (length requests <= 1)%nat.
Proof.
  unfold api_health, testServices.
  destruct (token_set env); simpl.
  - destruct (axios_get_models env) as [body|e]; simpl;
      repeat split;
      first [done | lia | by eauto | by intros [_ [? ?]] | by intros [? _]].
  - repeat split;
      first [done | lia | by eauto | by intros [_ [? ?]] | by intros [? _]].
Qed.

(* ===================================================================== *)
(** ** Speech recognition results in the browser *)
(* ===================================================================== *)

Lemma append_cons x (a b : string) : String x a +:+ b = String x (a +:+ b).
Proof. reflexivity. Qed.

Lemma append_assoc (a b c : string) : (a +:+ b) +:+ c = a +:+ (b +:+ c).
Proof.
  induction a as [|x a IH]; [done|]. by rewrite !append_cons, IH.
Qed.

Lemma append_empty_r (a : string) : a +:+ "" = a.
Proof.
  induction a as [|x a IH]; [done|]. by rewrite append_cons, IH.
Qed.

Lemma append_eq_empty (a b : string) : a +:+ b = "" -> a = "" /\ b = "".
Proof. destruct a; [done|]. rewrite append_cons. discriminate. Qed.

Lemma onresult_loop_joined results interim final :
  onresult_loop results interim final
  = (interim +:+ interims_joined results, final +:+ finals_joined results).
Proof.
  revert interim final. induction results as [|r rest IH]; intros interim final.
  - simpl. by rewrite !append_empty_r.
  - simpl. destruct (isFinal r); rewrite IH; by rewrite !append_assoc.
Qed.

Lemma finals_joined_empty results :
  finals_joined results = "" <-> forall r, r ∈ results -> isFinal r = false.
Proof.
  induction results as [|r rest IH]; simpl.
  - split; [|done]. intros _ r Hr. by apply elem_of_nil in Hr.
  - destruct (isFinal r) eqn:Hfinal.
    + split.
      * intros Hempty. apply append_eq_empty in Hempty as [_ Hempty].
        by apply append_eq_empty in Hempty as [? _].
      * intros Hall. specialize (Hall r (list_elem_of_here _ _)). congruence.
    + rewrite IH. split.
      * intros Hall r' Hr'. apply elem_of_cons in Hr' as [->|Hr']; [done|].
        by apply Hall.
      * intros Hall r' Hr'. apply Hall. by apply list_elem_of_further.
Qed.

(** X19. Of the recognition results from [resultIndex] on, [onresult]
    hands text to [translateText] exactly when one of them is final; the
    text is then the final transcripts, each followed by a space, in
    order, and it is also what is shown.  When none is final the interim
    transcripts, joined, are shown and nothing is translated. *)
Theorem onresult_translates_final_results
    (resultIndex : nat) (results : list SpeechResult) :
  let fresh := drop resultIndex results in
  ((exists r, r ∈ fresh /\ isFinal r = true) ->
   onresult resultIndex results
   = (finals_joined fresh, Some (finals_joined fresh)))
  /\
  ((forall r, r ∈ fresh -> isFinal r = false) ->
   onresult resultIndex results = (interims_joined fresh, None)).
Proof.
  intros fresh. unfold onresult. fold fresh.
  rewrite onresult_loop_joined.
  change ("" +:+ interims_joined fresh) with (interims_joined fresh).
  change ("" +:+ finals_joined fresh) with (finals_joined fresh).
  pose proof (finals_joined_empty fresh) as Hempty.
  split.
  - intros (r & Hr & Hfinal).
    destruct (String.eqb_spec (finals_joined fresh) "") as [Heq|Hne]; [|done].
    pose proof (proj1 Hempty Heq r Hr). congruence.
  - intros Hnone. by rewrite (proj2 Hempty Hnone).
Qed.

Lemma onresult_witness :
  onresult 1 [ mkSpeechResult "old" true; mkSpeechResult "hello" true;
               mkSpeechResult "wor" false ]
  = ("hello ", Some "hello ").
Proof.
  apply (onresult_translates_final_results 1
           [ mkSpeechResult "old" true; mkSpeechResult "hello" true;
             mkSpeechResult "wor" false ]).
  exists (mkSpeechResult "hello" true). split; [|reflexivity].
  simpl. apply list_elem_of_here.
Defined.

(* ===================================================================== *)
(** ** What a result is made of *)
(* ===================================================================== *)

Lemma synthesize_starts_with_gtts (w : World) text targetLang st :
  exists rest,
    trace (snd (synthesize w text targetLang st))
    = trace st ++ EvGttsNew text targetLang :: rest.
Proof.
  rewrite synthesize_eq.
  destruct (textToSpeechWithGoogle_events w text targetLang st) as (gevs & E & _).
  destruct (textToSpeechWithGoogle w text targetLang st) as [[mp3|e|] stG];
    simpl in E; [by eexists| |by eexists].
  destruct (only_textToSpeechWithHuggingFace w (fun _ => True) text targetLang
              ltac:(by repeat constructor) stG) as (evs & E' & _).
  exists (gevs ++ evs).
  destruct (textToSpeechWithHuggingFace w text targetLang stG) as [[a|e'|] st'];
    simpl in *; by rewrite E', E, <- app_assoc.
Qed.

(** X20. A result hangs together: whenever the pipeline returns,
    [originalText] is what transcription returned, [text] is what the
    translation stage made of [originalText], and [audio] is what synthesis
    made of exactly that [text] in the target language, synthesis having
    started by handing that text to gTTS. *)
Theorem result_is_made_of_its_stages
    (w : World) (audioData : AudioData) (sourceLang targetLang : string)
    (socket : bool) (st : State) (r : PipelineResult) (st' : State) :
  processAudioPipeline w audioData sourceLang targetLang socket st = (Return r, st') ->
  exists st1 l st2 st3,
    transcribe w (to_audioBuffer audioData) socket st = (Return (originalText r), st1) /\
    detect w sourceLang (originalText r) st1 = (Return l, st2) /\
    translate w (originalText r) l targetLang st2 = (Return (text r), st3) /\
    synthesize w (text r) targetLang st3 = (Return (audio r), st') /\
    exists rest, trace st' = trace st3 ++ EvGttsNew (text r) targetLang :: rest.
Proof.
  unfold processAudioPipeline, try_catch, bind. cbv zeta.
  destruct (_ <? 1000); [done|].
  destruct (transcribe _ _ _ _) as [[t|e|] st1]; [|done..].
  destruct (detect _ _ _ _) as [[l|e|] st2] eqn:H2; [|done..].
  destruct (translate _ _ _ _ _) as [[tr|e|] st3] eqn:H3; [|done..].
  pose proof (synthesize_starts_with_gtts w tr targetLang st3) as Hg.
  destruct (synthesize _ _ _ _) as [[a|e|] st4] eqn:H4; [|done..].
  intros [= <- <-]. simpl in *. by exists st1, l, st2, st3.
Qed.

Lemma result_is_made_of_its_stages_witness :
  exists st1 l st2 st3,
    transcribe all_up (to_audioBuffer (AudioBuffer silence_1000)) true empty_state
    = (Return (originalText (mkResult mp3_200 (JStr "hola") "hello")), st1) /\
    detect all_up "en" (originalText (mkResult mp3_200 (JStr "hola") "hello")) st1
    = (Return l, st2) /\
    translate all_up (originalText (mkResult mp3_200 (JStr "hola") "hello")) l "es" st2
    = (Return (text (mkResult mp3_200 (JStr "hola") "hello")), st3) /\
    synthesize all_up (text (mkResult mp3_200 (JStr "hola") "hello")) "es" st3
    = (Return (audio (mkResult mp3_200 (JStr "hola") "hello")),
       snd (processAudioPipeline all_up (AudioBuffer silence_1000) "en" "es" true
              empty_state)) /\
    exists rest,
      trace (snd (processAudioPipeline all_up (AudioBuffer silence_1000) "en" "es" true
                    empty_state))
      = trace st3
        ++ EvGttsNew (text (mkResult mp3_200 (JStr "hola") "hello")) "es" :: rest.
Proof.
  apply (result_is_made_of_its_stages all_up (AudioBuffer silence_1000) "en" "es" true
           empty_state).
  vm_compute. reflexivity.
Defined.

(** X21. Called without a socket, the pipeline emits nothing: none of the
    events it adds to the trace is a socket event. *)
Theorem pipeline_without_socket_is_silent
    (w : World) (audioData : AudioData) (sourceLang targetLang : string) :
  only not_emit (processAudioPipeline w audioData sourceLang targetLang false).
Proof.
  unfold processAudioPipeline. cbv zeta.
  apply only_try_catch; [|intros; apply only_throw].
  destruct (_ <? 1000); [apply only_throw|].
  apply only_bind.
  { unfold transcribe, mockSpeechToText.
    apply only_try_catch; [|intros; apply only_ret].
    apply only_bind; [apply only_stt_loop; by repeat constructor|].
    intros t. apply only_bind; [apply only_ret | intros; apply only_ret]. }
  intros t. apply only_bind; [by apply only_detect|].
  intros l. apply only_bind; [by apply only_translate|].
  intros tr. apply only_bind; [|intros; apply only_ret].
  apply only_synthesize; [done | by repeat constructor].
Qed.
